(** * ParcelStore: the guarded persistence layer of the parcel tracker

    A shallow embedding of [parcel.go].  The Go code is a thin layer over
    [database/sql]: every method sends one SQL statement to the storage
    backend and turns the answer into a Go result.  The development has
    three layers:

    - the data model ([Parcel], the stored [Row], the Go [error] values);
    - the storage backend: the six statement shapes the store sends, their
      effect on a table, and the [database/sql] handle ([Exec], [Query],
      [QueryRow], cursors) over a world that also carries the outcomes the
      backend is going to report, the journal of statements it received and
      what the process logged;
    - the six methods of [ParcelStore], statement for statement as in the
      source. *)

From Stdlib Require Import ZArith List String Bool Lia.
Import ListNotations.

Local Open Scope string_scope.
Local Open Scope Z_scope.
Local Open Scope list_scope.

(** ** Data model *)

(** Modelled from the spec: the [Parcel] struct is declared outside
    [parcel.go]; its fields are the ones [Get] scans into (section 3 of the
    specification: [Number], [Client] integers, [Status], [Address],
    [CreatedAt] strings). *)
Record Parcel := mkParcel {
  Number : Z;
  Client : Z;
  Status : string;
  Address : string;
  CreatedAt : string
}.

(** Modelled from the spec: the three status constants are declared outside
    [parcel.go]; the specification gives their values. *)
Definition ParcelStatusRegistered : string := "registered".
Definition ParcelStatusSent : string := "sent".
Definition ParcelStatusDelivered : string := "delivered".

(** [Parcel{}], the zero value [Get] and the [GetByClient] loop start from. *)
Definition zero_Parcel : Parcel := mkParcel 0 0 "" "" "".

Definition with_Number (n : Z) (p : Parcel) : Parcel :=
  mkParcel n (Client p) (Status p) (Address p) (CreatedAt p).
Definition with_Client (c : Z) (p : Parcel) : Parcel :=
  mkParcel (Number p) c (Status p) (Address p) (CreatedAt p).
Definition with_Status (s : string) (p : Parcel) : Parcel :=
  mkParcel (Number p) (Client p) s (Address p) (CreatedAt p).
Definition with_Address (a : string) (p : Parcel) : Parcel :=
  mkParcel (Number p) (Client p) (Status p) a (CreatedAt p).
Definition with_CreatedAt (t : string) (p : Parcel) : Parcel :=
  mkParcel (Number p) (Client p) (Status p) (Address p) t.

(** Go errors the store can hand to its caller: the sentinel
    [sql.ErrNoRows], the conversion error of [Scan] (with the index of the
    column it stopped at) and an error reported by the driver. *)
Inductive error :=
| ErrNoRows
| ErrScan (column : nat)
| ErrDriver (msg : string).

(** Go's [int] is taken to be 64 bits wide; [int(id)] on an [int64] wraps
    into that range. *)
Definition max_int64 : Z := 2 ^ 63 - 1.
Definition min_int64 : Z := - 2 ^ 63.
Definition int_of_int64 (id : Z) : Z := (id + 2 ^ 63) mod 2 ^ 64 - 2 ^ 63.

(** ** Storage backend *)

Module SQL.

(** Modelled from the spec: the table [parcel] is created outside
    [parcel.go]; section 6 of the specification gives its columns: [number]
    (generated primary key), [client] (integer), [status], [address] and
    [created_at] (text).  Every column but the key may hold NULL. *)
Record Row := mkRow {
  r_number : Z;
  r_client : option Z;
  r_status : option string;
  r_address : option string;
  r_created_at : option string
}.

(** The conditions the store's WHERE clauses are made of; a clause is their
    conjunction. *)
Inductive Cond :=
| NumberEq (number : Z)
| ClientEq (client : Z)
| StatusEq (status : string).

Inductive Assign :=
| SetStatusTo (status : string)
| SetAddressTo (address : string).

(** The statement shapes of [parcel.go], with their named arguments bound. *)
Inductive Stmt :=
| INSERT (client : Z) (status address created_at : string)
| SELECT (wh : list Cond)
| UPDATE (asg : Assign) (wh : list Cond)
| DELETE (wh : list Cond).

(** A comparison with NULL is never true. *)
Definition holds (c : Cond) (r : Row) : bool :=
  match c with
  | NumberEq n => r_number r =? n
  | ClientEq k => match r_client r with Some k' => k' =? k | None => false end
  | StatusEq s => match r_status r with Some s' => String.eqb s' s | None => false end
  end.

Definition matches (wh : list Cond) (r : Row) : bool :=
  forallb (fun c => holds c r) wh.

Definition assign (a : Assign) (r : Row) : Row :=
  match a with
  | SetStatusTo s =>
      mkRow (r_number r) (r_client r) (Some s) (r_address r) (r_created_at r)
  | SetAddressTo s =>
      mkRow (r_number r) (r_client r) (r_status r) (Some s) (r_created_at r)
  end.

Definition update_rows (a : Assign) (wh : list Cond) (t : list Row) : list Row :=
  map (fun r => if matches wh r then assign a r else r) t.

Definition delete_rows (wh : list Cond) (t : list Row) : list Row :=
  filter (fun r => negb (matches wh r)) t.

Definition select_rows (wh : list Cond) (t : list Row) : list Row :=
  filter (matches wh) t.

Definition affected (wh : list Cond) (t : list Row) : Z :=
  Z.of_nat (List.length (select_rows wh t)).

(** Modelled from the spec: the key is "assigned by storage on creation
    (auto-increment)": one more than the largest key the table holds or has
    ever handed out. *)
Definition max_number (t : list Row) : Z :=
  fold_right Z.max 0 (map r_number t).

Definition next_number (t : list Row) (seq : Z) : Z :=
  1 + Z.max seq (max_number t).

(** [sql.Result]: the generated key, or the error the driver has instead of
    it, and the number of rows affected. *)
Record Result := Build_Result {
  last_insert_id : error + Z;
  rows_affected : Z
}.

(** The result of a statement whose driver can tell the generated key. *)
Definition mkResult (id rows : Z) : Result := Build_Result (inr id) rows.

(** What a statement that runs to completion does: the new table, the new
    key counter, the [Result] that [Exec] hands back and the rows a cursor
    over it delivers.  An INSERT that has no key left fails and changes
    nothing. *)
Definition run (st : Stmt) (t : list Row) (seq : Z)
  : error + (list Row * Z * Result * list Row) :=
  match st with
  | INSERT client status address created_at =>
      let n := next_number t seq in
      if n <=? max_int64
      then inr (t ++ [mkRow n (Some client) (Some status) (Some address) (Some created_at)],
                n, mkResult n 1, [])
      else inl (ErrDriver "database or disk is full")
  | SELECT wh =>
      inr (t, seq, mkResult 0 0, select_rows wh t)
  | UPDATE a wh =>
      inr (update_rows a wh t, seq, mkResult 0 (affected wh t), [])
  | DELETE wh =>
      inr (delete_rows wh t, seq, mkResult 0 (affected wh t), [])
  end.

(** What the backend is going to do with the next statement it receives:
    run it, refuse it, (for a query) deliver some rows and then break, or
    run it and hand back a result that fails to tell the generated key. *)
Inductive outcome :=
| Ok
| StmtFails (msg : string)
| CursorFails (delivered : nat) (msg : string)
| LastInsertIdFails (msg : string).

(** The world the store runs in: the stored table and its key counter, the
    outcomes of the statements to come (none left: the statement runs), the
    statements the backend has received so far and the errors the process
    has logged. *)
Record World := mkWorld {
  table : list Row;
  seq : Z;
  sched : list outcome;
  journal : list Stmt;
  stderr : list error
}.

(** State passing: a Go call is a function of the world. *)
Definition M (A : Type) : Type := World -> A * World.

Definition ret {A} (a : A) : M A := fun w => (a, w).
Definition bind {A B} (m : M A) (k : A -> M B) : M B :=
  fun w => let (a, w') := m w in k a w'.

Definition next_outcome (w : World) : outcome := hd Ok (sched w).

(** The backend receives a statement: it is journalled and its outcome is
    taken off the schedule. *)
Definition receive (st : Stmt) (w : World) : World :=
  mkWorld (table w) (seq w) (tl (sched w)) (journal w ++ [st]) (stderr w).

Definition store (t : list Row) (s : Z) (w : World) : World :=
  mkWorld t s (sched w) (journal w) (stderr w).

(** [log.Println(err)] *)
Definition log_Println (e : error) : M unit :=
  fun w => (tt, mkWorld (table w) (seq w) (sched w) (journal w) (stderr w ++ [e])).

(** [Result.LastInsertId]: the key, or the driver's error; the statement
    the result comes from has run either way. *)
Definition LastInsertId (res : Result) : error + Z := last_insert_id res.

(** [db.Exec]: one statement, run to completion or not at all; a statement
    that breaks on the way is rolled back and reported as failed. *)
Definition Exec (st : Stmt) : M (error + Result) :=
  fun w =>
    let w1 := receive st w in
    match next_outcome w with
    | Ok =>
        match run st (table w) (seq w) with
        | inr (t', s', res, _) => (inr res, store t' s' w1)
        | inl e => (inl e, w1)
        end
    | StmtFails msg => (inl (ErrDriver msg), w1)
    | CursorFails _ msg => (inl (ErrDriver msg), w1)
    | LastInsertIdFails msg =>
        match run st (table w) (seq w) with
        | inr (t', s', res, _) =>
            (inr (Build_Result (inl (ErrDriver msg)) (rows_affected res)),
             store t' s' w1)
        | inl e => (inl e, w1)
        end
    end.

(** [*sql.Rows]: the rows still to be delivered and the error, if any, that
    ends the iteration after them. *)
Record Rows := mkRows {
  pending : list Row;
  broken : option error
}.

(** [db.Query] *)
Definition Query (st : Stmt) : M (error + Rows) :=
  fun w =>
    let w1 := receive st w in
    match next_outcome w with
    | Ok =>
        match run st (table w) (seq w) with
        | inr (t', s', _, out) => (inr (mkRows out None), store t' s' w1)
        | inl e => (inl e, w1)
        end
    | StmtFails msg => (inl (ErrDriver msg), w1)
    | CursorFails k msg =>
        match run st (table w) (seq w) with
        | inr (t', s', _, out) =>
            (inr (mkRows (firstn k out) (Some (ErrDriver msg))), store t' s' w1)
        | inl e => (inl e, w1)
        end
    | LastInsertIdFails _ =>
        match run st (table w) (seq w) with
        | inr (t', s', _, out) => (inr (mkRows out None), store t' s' w1)
        | inl e => (inl e, w1)
        end
    end.

(** [rows.Scan(&p.Number, &p.Client, &p.Status, &p.Address, &p.CreatedAt)]:
    the columns are converted and assigned from left to right; a NULL cannot
    be converted and stops the scan there, with the fields before it already
    assigned.  A row holds in each column a value of the column's type or
    NULL; a value of another type, which the scan would refuse as well, is
    not among the rows of this model. *)
Definition Scan (r : Row) (p : Parcel) : Parcel * option error :=
  let p := with_Number (r_number r) p in
  match r_client r with
  | None => (p, Some (ErrScan 1))
  | Some c =>
      let p := with_Client c p in
      match r_status r with
      | None => (p, Some (ErrScan 2))
      | Some s =>
          let p := with_Status s p in
          match r_address r with
          | None => (p, Some (ErrScan 3))
          | Some a =>
              let p := with_Address a p in
              match r_created_at r with
              | None => (p, Some (ErrScan 4))
              | Some t => (with_CreatedAt t p, None)
              end
          end
      end
  end.

(** [*sql.Row]: what [db.QueryRow] returns, the query's error kept for
    [Scan]. *)
Definition RowHandle : Type := error + Rows.

Definition QueryRow (st : Stmt) : M RowHandle := Query st.

(** [row.Scan]: the kept error; else the iteration error or [ErrNoRows]
    when no row comes; else the scan of the first row.  The cursor is closed
    on the way out, which reports nothing once a row has been read. *)
Definition Row_Scan (h : RowHandle) (p : Parcel) : Parcel * option error :=
  match h with
  | inl e => (p, Some e)
  | inr rows =>
      match pending rows with
      | [] =>
          match broken rows with
          | Some e => (p, Some e)
          | None => (p, Some ErrNoRows)
          end
      | r :: _ => Scan r p
      end
  end.

End SQL.

(** ** The store *)

Module ParcelStore.
Import SQL.

Notation "x <- m ;; k" := (bind m (fun x => k))
  (at level 100, m at next level, right associativity).
Notation "m ;;; k" := (bind m (fun _ => k))
  (at level 100, right associativity).

(** [Add]: the key of the new row, or [0] and the error. *)
Definition Add (p : Parcel) : M (Z * option error) :=
  r <- Exec (INSERT (Client p) (Status p) (Address p) (CreatedAt p)) ;;
  match r with
  | inl err => log_Println err ;;; ret (0, Some err)
  | inr res =>
      match LastInsertId res with
      | inl err => log_Println err ;;; ret (0, Some err)
      | inr id => ret (int_of_int64 id, None)
      end
  end.

(** [Get] *)
Definition Get (number : Z) : M (Parcel * option error) :=
  let p := zero_Parcel in
  row <- QueryRow (SELECT [NumberEq number]) ;;
  match Row_Scan row p with
  | (p, Some err) => log_Println err ;;; ret (p, Some err)
  | (p, None) => ret (p, None)
  end.

(** The loop of [GetByClient], [for rows.Next() { ... }]: [inl] is the
    early return out of the loop, [inr] its normal end. *)
Fixpoint scan_loop (rows : list Row) (res : list Parcel)
  : (list Parcel * error) + list Parcel :=
  match rows with
  | [] => inr res
  | r :: rows' =>
      match Scan r zero_Parcel with
      | (_, Some err) => inl (res, err)
      | (p, None) => scan_loop rows' (res ++ [p])
      end
  end.

(** [GetByClient]; the deferred [rows.Close()] releases the cursor on every
    path and touches nothing of the world. *)
Definition GetByClient (client : Z) : M (list Parcel * option error) :=
  let res := [] in
  q <- Query (SELECT [ClientEq client]) ;;
  match q with
  | inl err => log_Println err ;;; ret (res, Some err)
  | inr rows =>
      match scan_loop (pending rows) res with
      | inl (res, err) => log_Println err ;;; ret (res, Some err)
      | inr res =>
          match broken rows with
          | Some err => log_Println err ;;; ret (res, Some err)
          | None => ret (res, None)
          end
      end
  end.

(** [SetStatus] *)
Definition SetStatus (number : Z) (status : string) : M (option error) :=
  r <- Exec (UPDATE (SetStatusTo status) [NumberEq number]) ;;
  match r with
  | inl err => log_Println err ;;; ret (Some err)
  | inr _ => ret None
  end.

(** [SetAddress] *)
Definition SetAddress (number : Z) (address : string) : M (option error) :=
  r <- Exec (UPDATE (SetAddressTo address)
               [NumberEq number; StatusEq ParcelStatusRegistered]) ;;
  match r with
  | inl err => log_Println err ;;; ret (Some err)
  | inr _ => ret None
  end.

(** [Delete] *)
Definition Delete (number : Z) : M (option error) :=
  r <- Exec (DELETE [NumberEq number; StatusEq ParcelStatusRegistered]) ;;
  match r with
  | inl err => log_Println err ;;; ret (Some err)
  | inr _ => ret None
  end.

End ParcelStore.

(** ** Vocabulary of the statements *)

Import SQL ParcelStore.

(** The row an INSERT writes for a parcel, and the only shape of row that
    scans back into a parcel without error. *)
Definition row_of_parcel (p : Parcel) : Row :=
  mkRow (Number p) (Some (Client p)) (Some (Status p)) (Some (Address p))
        (Some (CreatedAt p)).

Definition has_number (n : Z) (r : Row) : bool := r_number r =? n.

Definition has_client (c : Z) (r : Row) : bool :=
  match r_client r with Some c' => c' =? c | None => false end.

Definition is_registered (r : Row) : bool :=
  match r_status r with
  | Some s => String.eqb s ParcelStatusRegistered
  | None => false
  end.

(** The row [Get] reads for a number: the first one that carries it. *)
Definition lookup (n : Z) (t : list Row) : option Row := find (has_number n) t.

(** Parcel [p] is stored under its number. *)
Definition stored (p : Parcel) (w : World) : Prop :=
  lookup (Number p) (table w) = Some (row_of_parcel p).

Definition is_Ok (o : outcome) : bool :=
  match o with Ok => true | _ => false end.

(** The backend runs the next [k] statements it receives. *)
Definition quiet (k : nat) (w : World) : bool :=
  forallb is_Ok (firstn k (sched w)).

(** The primary key: no two rows carry the same number. *)
Definition unique_numbers (t : list Row) : Prop := NoDup (map r_number t).

(** The statement each method sends. *)
Definition stmt_Add (p : Parcel) : Stmt :=
  INSERT (Client p) (Status p) (Address p) (CreatedAt p).
Definition stmt_Get (number : Z) : Stmt := SELECT [NumberEq number].
Definition stmt_GetByClient (client : Z) : Stmt := SELECT [ClientEq client].
Definition stmt_SetStatus (number : Z) (status : string) : Stmt :=
  UPDATE (SetStatusTo status) [NumberEq number].
Definition stmt_SetAddress (number : Z) (address : string) : Stmt :=
  UPDATE (SetAddressTo address) [NumberEq number; StatusEq ParcelStatusRegistered].
Definition stmt_Delete (number : Z) : Stmt :=
  DELETE [NumberEq number; StatusEq ParcelStatusRegistered].

(** A call of one of the six methods, what it returns, and runs of calls. *)
Inductive call :=
| CallAdd (p : Parcel)
| CallGet (number : Z)
| CallGetByClient (client : Z)
| CallSetStatus (number : Z) (status : string)
| CallSetAddress (number : Z) (address : string)
| CallDelete (number : Z).

Inductive reply :=
| RetNumber (n : Z)
| RetParcel (p : Parcel)
| RetParcels (ps : list Parcel)
| RetNothing.

Definition invoke (c : call) : M (reply * option error) :=
  fun w =>
    match c with
    | CallAdd p => let '((n, e), w') := Add p w in ((RetNumber n, e), w')
    | CallGet n => let '((p, e), w') := Get n w in ((RetParcel p, e), w')
    | CallGetByClient c => let '((ps, e), w') := GetByClient c w in ((RetParcels ps, e), w')
    | CallSetStatus n s => let '(e, w') := SetStatus n s w in ((RetNothing, e), w')
    | CallSetAddress n a => let '(e, w') := SetAddress n a w in ((RetNothing, e), w')
    | CallDelete n => let '(e, w') := Delete n w in ((RetNothing, e), w')
    end.

Fixpoint invoke_all (cs : list call) (w : World)
  : list (reply * option error) * World :=
  match cs with
  | [] => ([], w)
  | c :: cs' =>
      let (r, w1) := invoke c w in
      let (rs, w2) := invoke_all cs' w1 in
      (r :: rs, w2)
  end.

Definition stmt_of (c : call) : Stmt :=
  match c with
  | CallAdd p => stmt_Add p
  | CallGet n => stmt_Get n
  | CallGetByClient c => stmt_GetByClient c
  | CallSetStatus n s => stmt_SetStatus n s
  | CallSetAddress n a => stmt_SetAddress n a
  | CallDelete n => stmt_Delete n
  end.

(** The numbers the successful [Add]s of a run returned. *)
Fixpoint issued (rs : list (reply * option error)) : list Z :=
  match rs with
  | [] => []
  | (RetNumber n, None) :: rs' => n :: issued rs'
  | _ :: rs' => issued rs'
  end.

(** The calls that change or remove stored parcels. *)
Definition is_mutation (c : call) : bool :=
  match c with
  | CallSetStatus _ _ | CallSetAddress _ _ | CallDelete _ => true
  | _ => false
  end.

(** Two rows are the same parcel at two moments: number, client and
    creation time agree. *)
Definition same_identity (r r' : Row) : Prop :=
  r_number r' = r_number r /\ r_client r' = r_client r /\
  r_created_at r' = r_created_at r.

(** A later table holds some of the rows of an earlier one, in their order,
    each with its identity. *)
Inductive evolves : list Row -> list Row -> Prop :=
| evolves_nil : evolves [] []
| evolves_keep r r' t t' :
    same_identity r r' -> evolves t t' -> evolves (r :: t) (r' :: t')
| evolves_drop r t t' :
    evolves t t' -> evolves (r :: t) t'.

(** A row that scans: it is the row of a parcel. *)
Definition complete (r : Row) : Prop := exists p, r = row_of_parcel p.

(** The world after a statement the backend refused: nothing but the
    journal, the schedule and the log has moved. *)
Definition failed (e : error) (st : Stmt) (w : World) : World :=
  snd (log_Println e (receive st w)).

(** The error of the first row of a cursor that does not scan, if any. *)
Fixpoint first_scan_error (rows : list Row) : option error :=
  match rows with
  | [] => None
  | r :: rows' =>
      match snd (Scan r zero_Parcel) with
      | Some e => Some e
      | None => first_scan_error rows'
      end
  end.

(** The first error the storage hands a method during a call, read off the
    backend and not off the method: the error of [Exec] or [Query]; for
    [Add] also that of [LastInsertId]; for [Get] the error that ends a
    cursor with no row or that of scanning its first row; for [GetByClient]
    that of the first row that does not scan or, after the last row, the
    one that ended the cursor. *)
Definition storage_error (c : call) (w : World) : option error :=
  match c with
  | CallAdd _ =>
      match fst (Exec (stmt_of c) w) with
      | inl e => Some e
      | inr res =>
          match LastInsertId res with inl e => Some e | inr _ => None end
      end
  | CallGet _ =>
      match fst (Query (stmt_of c) w) with
      | inl e => Some e
      | inr rows =>
          match pending rows with
          | [] => broken rows
          | r :: _ => snd (Scan r zero_Parcel)
          end
      end
  | CallGetByClient _ =>
      match fst (Query (stmt_of c) w) with
      | inl e => Some e
      | inr rows =>
          match first_scan_error (pending rows) with
          | Some e => Some e
          | None => broken rows
          end
      end
  | _ =>
      match fst (Exec (stmt_of c) w) with inl e => Some e | inr _ => None end
  end.

(** The world after an [Add] whose INSERT ran and whose result then failed
    to tell the key: the row is stored under the next number, the key
    counter has moved, the error is logged. *)
Definition inserted_unreported (p : Parcel) (e : error) (w : World) : World :=
  snd (log_Println e
         (store (table w
                 ++ [row_of_parcel (with_Number (next_number (table w) (seq w)) p)])
            (next_number (table w) (seq w))
            (receive (stmt_Add p) w))).

(** The results of the driver tell the keys they generated. *)
Definition reports_ids (w : World) : Prop :=
  forall msg, ~ In (LastInsertIdFails msg) (sched w).

(** The number a mutating call addresses. *)
Definition targets (c : call) : option Z :=
  match c with
  | CallSetStatus n _ | CallSetAddress n _ | CallDelete n => Some n
  | _ => None
  end.

(** What the statement of a mutating call does to the table when the
    backend runs it. *)
Definition effect (c : call) (t : list Row) : list Row :=
  match stmt_of c with
  | UPDATE a wh => update_rows a wh t
  | DELETE wh => delete_rows wh t
  | _ => t
  end.

(** ** The tests of the store

    The test file drives the store against the database file it opens,
    whatever that file holds.  A test is a function of the world and of the
    list of assertions that have failed so far, each named by its line in
    the test file; the clock and the random source are its arguments. *)

Definition Parcel_eqb (p q : Parcel) : bool :=
  (Number p =? Number q) && (Client p =? Client q) &&
  String.eqb (Status p) (Status q) && String.eqb (Address p) (Address q) &&
  String.eqb (CreatedAt p) (CreatedAt q).

Definition error_eqb (e e' : error) : bool :=
  match e, e' with
  | ErrNoRows, ErrNoRows => true
  | ErrScan k, ErrScan k' => Nat.eqb k k'
  | ErrDriver m, ErrDriver m' => String.eqb m m'
  | _, _ => false
  end.

Definition err_eqb (e e' : option error) : bool :=
  match e, e' with
  | None, None => true
  | Some a, Some b => error_eqb a b
  | _, _ => false
  end.

Module Tests.

(** [*testing.T]: the result is [None] once a [require] has stopped the
    test. *)
Definition T (A : Type) : Type :=
  list nat -> World -> option A * list nat * World.

Definition pure {A} (a : A) : T A := fun fs w => (Some a, fs, w).

Definition and_then {A B} (m : T A) (k : A -> T B) : T B :=
  fun fs w =>
    match m fs w with
    | (Some a, fs', w') => k a fs' w'
    | (None, fs', w') => (None, fs', w')
    end.

(** A call of a method of the store from a test. *)
Definition call {A} (m : M A) : T A :=
  fun fs w => let (a, w') := m w in (Some a, fs, w').

(** [require.X(t, ...)] records the failure and stops the test;
    [assert.X(t, ...)] records it and goes on. *)
Definition require (line : nat) (ok : bool) : T unit :=
  fun fs w => if ok then (Some tt, fs, w) else (None, fs ++ [line], w).

Definition assert_ (line : nat) (ok : bool) : T unit :=
  fun fs w => (Some tt, if ok then fs else fs ++ [line], w).

Definition require_NoError (line : nat) (err : option error) : T unit :=
  require line (match err with None => true | Some _ => false end).

Definition require_NotEmpty (line : nat) (id : Z) : T unit :=
  require line (negb (id =? 0)).

Definition require_Equal {A} (eqb : A -> A -> bool) (line : nat)
           (expected actual : A) : T unit :=
  require line (eqb expected actual).

Definition require_Len {A} (line : nat) (l : list A) (n : nat) : T unit :=
  require line (Nat.eqb (List.length l) n).

Definition assert_Equal {A} (eqb : A -> A -> bool) (line : nat)
           (expected actual : A) : T unit :=
  assert_ line (eqb expected actual).

Notation "x <~ m ;; k" := (and_then m (fun x => k))
  (at level 100, m at next level, right associativity).
Notation "m ;;> k" := (and_then m (fun _ => k))
  (at level 100, right associativity).

(** [sql.Open("sqlite", "tracker.db")] only looks the driver up; nothing is
    sent to the database before the first statement. *)
Definition sql_Open : T (option error) := pure None.

(** [getTestParcel]; [now] is [time.Now().UTC().Format(time.RFC3339)]. *)
Definition getTestParcel (now : string) : Parcel :=
  mkParcel 0 1000 ParcelStatusRegistered "test" now.

(** [TestAddGetDelete] *)
Definition TestAddGetDelete (now : string) : T unit :=
  err <~ sql_Open ;;
  require_NoError 36 err ;;>
  let parcel := getTestParcel now in
  r <~ call (Add parcel) ;;
  let (id, err) := r : Z * option error in
  require_NoError 45 err ;;>
  require_NotEmpty 46 id ;;>
  r <~ call (Get id) ;;
  let (p, err) := r : Parcel * option error in
  require_NoError 51 err ;;>
  assert_Equal String.eqb 52 (Address parcel) (Address p) ;;>
  assert_Equal Z.eqb 53 (Client parcel) (Client p) ;;>
  assert_Equal String.eqb 54 (CreatedAt parcel) (CreatedAt p) ;;>
  assert_Equal String.eqb 55 (Status parcel) (Status p) ;;>
  err <~ call (Delete id) ;;
  require_NoError 59 err ;;>
  r <~ call (Get id) ;;
  let (_, err) := r : Parcel * option error in
  require_Equal err_eqb 63 (Some ErrNoRows) err.

(** [TestSetAddress] *)
Definition TestSetAddress (now : string) : T unit :=
  err <~ sql_Open ;;
  require_NoError 70 err ;;>
  let parcel := getTestParcel now in
  r <~ call (Add parcel) ;;
  let (id, err) := r : Z * option error in
  require_NoError 79 err ;;>
  require_NotEmpty 80 id ;;>
  let newAddress := "new test address" in
  err <~ call (SetAddress id newAddress) ;;
  require_NoError 85 err ;;>
  r <~ call (Get id) ;;
  let (p, err) := r : Parcel * option error in
  require_NoError 89 err ;;>
  require_Equal String.eqb 90 newAddress (Address p).

(** [TestSetStatus] *)
Definition TestSetStatus (now : string) : T unit :=
  err <~ sql_Open ;;
  require_NoError 97 err ;;>
  let parcel := getTestParcel now in
  r <~ call (Add parcel) ;;
  let (id, err) := r : Z * option error in
  require_NoError 106 err ;;>
  require_NotEmpty 107 id ;;>
  err <~ call (SetStatus id ParcelStatusSent) ;;
  require_NoError 111 err ;;>
  r <~ call (Get id) ;;
  let (p, err) := r : Parcel * option error in
  require_NoError 115 err ;;>
  require_Equal String.eqb 116 ParcelStatusSent (Status p).

(** [parcelMap[k]] of a [map[int]Parcel] kept as the list of its
    assignments, latest first; a missing key reads as the zero value. *)
Definition map_get (parcelMap : list (Z * Parcel)) (k : Z) : Parcel :=
  match find (fun kv => fst kv =? k) parcelMap with
  | Some kv => snd kv
  | None => zero_Parcel
  end.

(** The first loop of [TestGetByClient]: [todo] are the elements of
    [parcels] from index [i] on, [done] those before it. *)
Fixpoint add_parcels (todo done : list Parcel) (parcelMap : list (Z * Parcel))
  : T (list Parcel * list (Z * Parcel)) :=
  match todo with
  | [] => pure (done, parcelMap)
  | p :: todo' =>
      r <~ call (Add p) ;;
      let (id, err) := r : Z * option error in
      require_NoError 145 err ;;>
      require_NotEmpty 146 id ;;>
      let p := with_Number id p in
      add_parcels todo' (done ++ [p]) ((id, p) :: parcelMap)
  end.

(** The second loop of [TestGetByClient]. *)
Fixpoint check_parcels (storedParcels : list Parcel)
         (parcelMap : list (Z * Parcel)) : T unit :=
  match storedParcels with
  | [] => pure tt
  | parcel :: rest =>
      let expected := map_get parcelMap (Number parcel) in
      require_Equal Parcel_eqb 166 expected parcel ;;>
      assert_Equal String.eqb 167 (Address expected) (Address parcel) ;;>
      assert_Equal Z.eqb 168 (Client expected) (Client parcel) ;;>
      assert_Equal String.eqb 169 (CreatedAt expected) (CreatedAt parcel) ;;>
      assert_Equal String.eqb 170 (Status expected) (Status parcel) ;;>
      check_parcels rest parcelMap
  end.

(** [TestGetByClient]; [client] is [randRange.Intn(10_000_000)] and the
    three times are those of the three calls of [getTestParcel]. *)
Definition TestGetByClient (now0 now1 now2 : string) (client : Z) : T unit :=
  err <~ sql_Open ;;
  require_NoError 123 err ;;>
  let parcels := [getTestParcel now0; getTestParcel now1; getTestParcel now2] in
  let parcelMap := [] in
  let parcels := map (with_Client client) parcels in
  r <~ add_parcels parcels [] parcelMap ;;
  let (parcels, parcelMap) := r : list Parcel * list (Z * Parcel) in
  r <~ call (GetByClient client) ;;
  let (storedParcels, err) := r : list Parcel * option error in
  require_NoError 159 err ;;>
  require_Len 160 storedParcels (List.length parcels) ;;>
  check_parcels storedParcels parcelMap.

(** Running a test: the assertions that failed, none when it passes, and
    the world it leaves. *)
Definition run_test (t : T unit) (w : World) : list nat * World :=
  let '(_, fs, w') := t [] w in (fs, w').

End Tests.

(** The parcels of a slice with the numbers a run of successful [Add]s
    gives them, from [n] on, and the map the first loop of [TestGetByClient]
    builds from them. *)
Fixpoint number_from (n : Z) (ps : list Parcel) : list Parcel :=
  match ps with
  | [] => []
  | p :: ps' => with_Number n p :: number_from (n + 1) ps'
  end.

Fixpoint map_after (n : Z) (ps : list Parcel) (parcelMap : list (Z * Parcel))
  : list (Z * Parcel) :=
  match ps with
  | [] => parcelMap
  | p :: ps' => map_after (n + 1) ps' ((n, with_Number n p) :: parcelMap)
  end.

(** ** Lists, keys and the integer conversion *)

Lemma int_of_int64_id (z : Z) :
  min_int64 <= z <= max_int64 -> int_of_int64 z = z.
Proof.
  unfold min_int64, max_int64, int_of_int64. intros H.
  rewrite Z.mod_small; lia.
Qed.

Lemma max_number_nonneg (t : list Row) : 0 <= max_number t.
Proof.
  unfold max_number. induction t as [|r t IH]; simpl; lia.
Qed.

Lemma max_number_bound (t : list Row) (r : Row) :
  In r t -> r_number r <= max_number t.
Proof.
  unfold max_number. induction t as [|r0 t IH]; simpl; [tauto|].
  intros [->|Hin]; [lia|]. specialize (IH Hin). lia.
Qed.

Lemma next_number_positive (t : list Row) (s : Z) : 1 <= next_number t s.
Proof.
  unfold next_number. pose proof (max_number_nonneg t). lia.
Qed.

Lemma next_number_fresh (t : list Row) (s : Z) (r : Row) :
  In r t -> r_number r < next_number t s.
Proof.
  intros Hin. apply max_number_bound in Hin. unfold next_number. lia.
Qed.

Lemma matches_number (n : Z) (r : Row) :
  matches [NumberEq n] r = has_number n r.
Proof. unfold matches, has_number. simpl. apply andb_true_r. Qed.

Lemma matches_client (c : Z) (r : Row) :
  matches [ClientEq c] r = has_client c r.
Proof. unfold matches, has_client. simpl. apply andb_true_r. Qed.

Lemma matches_guard (n : Z) (r : Row) :
  matches [NumberEq n; StatusEq ParcelStatusRegistered] r
  = has_number n r && is_registered r.
Proof.
  unfold matches, has_number, is_registered. simpl.
  rewrite andb_true_r. reflexivity.
Qed.

Lemma has_number_true (n : Z) (r : Row) :
  has_number n r = true <-> r_number r = n.
Proof. unfold has_number. apply Z.eqb_eq. Qed.

Lemma has_number_false (n : Z) (r : Row) :
  has_number n r = false <-> r_number r <> n.
Proof. unfold has_number. apply Z.eqb_neq. Qed.

Lemma is_registered_true (r : Row) :
  is_registered r = true <-> r_status r = Some ParcelStatusRegistered.
Proof.
  unfold is_registered. destruct (r_status r) as [s|].
  - rewrite String.eqb_eq. split; congruence.
  - split; discriminate.
Qed.

Lemma has_client_true (c : Z) (r : Row) :
  has_client c r = true <-> r_client r = Some c.
Proof.
  unfold has_client. destruct (r_client r) as [c'|].
  - rewrite Z.eqb_eq. split; congruence.
  - split; discriminate.
Qed.

Lemma filter_head_find {A} (f : A -> bool) (l : list A) :
  find f l = hd_error (filter f l).
Proof.
  induction l as [|a l IH]; simpl; [reflexivity|].
  destruct (f a); simpl; auto.
Qed.

Lemma find_none_iff {A} (f : A -> bool) (l : list A) :
  find f l = None <-> forall a, In a l -> f a = false.
Proof.
  split.
  - intros H a Hin. exact (find_none f l H a Hin).
  - induction l as [|a l IH]; simpl; intros H; [reflexivity|].
    rewrite (H a (or_introl eq_refl)). apply IH. intros b Hb. apply H. now right.
Qed.

Lemma map_id_when {A} (f : A -> A) (l : list A) :
  (forall a, In a l -> f a = a) -> map f l = l.
Proof.
  induction l as [|a l IH]; simpl; intros H; [reflexivity|].
  rewrite H by now left. f_equal. apply IH. intros b Hb. apply H. now right.
Qed.

Lemma filter_all {A} (f : A -> bool) (l : list A) :
  (forall a, In a l -> f a = true) -> filter f l = l.
Proof.
  induction l as [|a l IH]; simpl; intros H; [reflexivity|].
  rewrite H by now left. f_equal. apply IH. intros b Hb. apply H. now right.
Qed.

Lemma filter_none {A} (f : A -> bool) (l : list A) :
  (forall a, In a l -> f a = false) -> filter f l = [].
Proof.
  induction l as [|a l IH]; simpl; intros H; [reflexivity|].
  rewrite H by now left. apply IH. intros b Hb. apply H. now right.
Qed.

Lemma lookup_fresh (t : list Row) (r : Row) :
  (forall r0, In r0 t -> r_number r0 <> r_number r) ->
  lookup (r_number r) (t ++ [r]) = Some r.
Proof.
  unfold lookup. induction t as [|r0 t IH]; simpl; intros H.
  - unfold has_number. now rewrite Z.eqb_refl.
  - destruct (has_number (r_number r) r0) eqn:E.
    + apply has_number_true in E. exfalso. apply (H r0); auto.
    + apply IH. intros r1 H1. apply H. now right.
Qed.

Lemma lookup_in (n : Z) (t : list Row) (r : Row) :
  lookup n t = Some r -> In r t /\ r_number r = n.
Proof.
  unfold lookup. intros H. apply find_some in H. destruct H as [Hin Hn].
  split; [assumption|]. now apply has_number_true.
Qed.

Lemma lookup_none (n : Z) (t : list Row) :
  lookup n t = None <-> forall r, In r t -> r_number r <> n.
Proof.
  unfold lookup. rewrite find_none_iff. split; intros H r Hin.
  - apply has_number_false. now apply H.
  - apply has_number_false. now apply H.
Qed.

Lemma Scan_row_of_parcel (p q : Parcel) :
  Scan (row_of_parcel p) q = (p, None).
Proof. destruct p. reflexivity. Qed.

Lemma Scan_ok_inv (r : Row) (q p : Parcel) :
  Scan r q = (p, None) -> r = row_of_parcel p.
Proof.
  unfold Scan. destruct r as [n [c|] [s|] [a|] [t|]]; simpl; intros H;
    inversion H; subst; reflexivity.
Qed.

Lemma quiet_step (k : nat) (w : World) :
  quiet (S k) w = true ->
  next_outcome w = Ok /\
  forall w', sched w' = tl (sched w) -> quiet k w' = true.
Proof.
  unfold quiet, next_outcome. destruct (sched w) as [|o s]; simpl.
  - intros _. split; [reflexivity|]. intros w' ->. now rewrite firstn_nil.
  - intros H. apply andb_true_iff in H. destruct H as [Ho Hs]. split.
    + destruct o; try discriminate; reflexivity.
    + intros w' ->. exact Hs.
Qed.

(** One step of a quiet backend: the next statement runs, and what is left
    of the schedule is quiet for one statement less. *)
Ltac quiet_next Hq Hok :=
  apply quiet_step in Hq; destruct Hq as (Hok & Hq).

(** ** What each method does, outcome by outcome *)

Lemma select_number (n : Z) (t : list Row) :
  select_rows [NumberEq n] t = filter (has_number n) t.
Proof. apply filter_ext. intros r. apply matches_number. Qed.

Lemma select_client (c : Z) (t : list Row) :
  select_rows [ClientEq c] t = filter (has_client c) t.
Proof. apply filter_ext. intros r. apply matches_client. Qed.

Lemma delete_guard (n : Z) (t : list Row) :
  delete_rows [NumberEq n; StatusEq ParcelStatusRegistered] t
  = filter (fun r => negb (has_number n r && is_registered r)) t.
Proof. apply filter_ext. intros r. now rewrite matches_guard. Qed.

Lemma update_guard (a : Assign) (n : Z) (t : list Row) :
  update_rows a [NumberEq n; StatusEq ParcelStatusRegistered] t
  = map (fun r => if has_number n r && is_registered r then assign a r else r) t.
Proof. apply map_ext. intros r. now rewrite matches_guard. Qed.

Lemma update_number (a : Assign) (n : Z) (t : list Row) :
  update_rows a [NumberEq n] t
  = map (fun r => if has_number n r then assign a r else r) t.
Proof. apply map_ext. intros r. now rewrite matches_number. Qed.

Lemma SetStatus_cases (n : Z) (s : string) (w : World) :
  match next_outcome w with
  | Ok =>
      SetStatus n s w
      = (None, store (update_rows (SetStatusTo s) [NumberEq n] (table w)) (seq w)
                 (receive (stmt_SetStatus n s) w))
  | StmtFails msg | CursorFails _ msg =>
      SetStatus n s w
      = (Some (ErrDriver msg), failed (ErrDriver msg) (stmt_SetStatus n s) w)
  | LastInsertIdFails _ =>
      SetStatus n s w
      = (None, store (update_rows (SetStatusTo s) [NumberEq n] (table w)) (seq w)
                 (receive (stmt_SetStatus n s) w))
  end.
Proof. unfold SetStatus, bind, Exec. destruct (next_outcome w); reflexivity. Qed.

Lemma SetAddress_cases (n : Z) (a : string) (w : World) :
  match next_outcome w with
  | Ok =>
      SetAddress n a w
      = (None, store (update_rows (SetAddressTo a)
                        [NumberEq n; StatusEq ParcelStatusRegistered] (table w))
                 (seq w) (receive (stmt_SetAddress n a) w))
  | StmtFails msg | CursorFails _ msg =>
      SetAddress n a w
      = (Some (ErrDriver msg), failed (ErrDriver msg) (stmt_SetAddress n a) w)
  | LastInsertIdFails _ =>
      SetAddress n a w
      = (None, store (update_rows (SetAddressTo a)
                        [NumberEq n; StatusEq ParcelStatusRegistered] (table w))
                 (seq w) (receive (stmt_SetAddress n a) w))
  end.
Proof. unfold SetAddress, bind, Exec. destruct (next_outcome w); reflexivity. Qed.

Lemma Delete_cases (n : Z) (w : World) :
  match next_outcome w with
  | Ok =>
      Delete n w
      = (None, store (delete_rows [NumberEq n; StatusEq ParcelStatusRegistered]
                        (table w))
                 (seq w) (receive (stmt_Delete n) w))
  | StmtFails msg | CursorFails _ msg =>
      Delete n w = (Some (ErrDriver msg), failed (ErrDriver msg) (stmt_Delete n) w)
  | LastInsertIdFails _ =>
      Delete n w
      = (None, store (delete_rows [NumberEq n; StatusEq ParcelStatusRegistered]
                        (table w))
                 (seq w) (receive (stmt_Delete n) w))
  end.
Proof. unfold Delete, bind, Exec. destruct (next_outcome w); reflexivity. Qed.

Lemma Add_cases (p : Parcel) (w : World) :
  match next_outcome w with
  | Ok =>
      let n := next_number (table w) (seq w) in
      if n <=? max_int64
      then Add p w
           = ((n, None),
              store (table w ++ [row_of_parcel (with_Number n p)]) n
                (receive (stmt_Add p) w))
      else Add p w
           = ((0, Some (ErrDriver "database or disk is full")),
              failed (ErrDriver "database or disk is full") (stmt_Add p) w)
  | StmtFails msg | CursorFails _ msg =>
      Add p w = ((0, Some (ErrDriver msg)), failed (ErrDriver msg) (stmt_Add p) w)
  | LastInsertIdFails msg =>
      let n := next_number (table w) (seq w) in
      if n <=? max_int64
      then Add p w
           = ((0, Some (ErrDriver msg)),
              snd (log_Println (ErrDriver msg)
                     (store (table w ++ [row_of_parcel (with_Number n p)]) n
                        (receive (stmt_Add p) w))))
      else Add p w
           = ((0, Some (ErrDriver "database or disk is full")),
              failed (ErrDriver "database or disk is full") (stmt_Add p) w)
  end.
Proof.
  unfold Add, bind, Exec. destruct (next_outcome w); try reflexivity.
  - cbv zeta. unfold run, stmt_Add.
    destruct (next_number (table w) (seq w) <=? max_int64) eqn:E; [|reflexivity].
    cbn [LastInsertId last_insert_id mkResult]. unfold ret.
    rewrite int_of_int64_id; [reflexivity|].
    apply Z.leb_le in E. pose proof (next_number_positive (table w) (seq w)).
    unfold min_int64. lia.
  - cbv zeta. unfold run, stmt_Add.
    destruct (next_number (table w) (seq w) <=? max_int64); reflexivity.
Qed.

Lemma Add_success (p : Parcel) (w w' : World) (n : Z) :
  Add p w = ((n, None), w') ->
  next_outcome w = Ok /\
  n = next_number (table w) (seq w) /\ 1 <= n <= max_int64 /\
  w' = store (table w ++ [row_of_parcel (with_Number n p)]) n
         (receive (stmt_Add p) w).
Proof.
  intros H. pose proof (Add_cases p w) as C.
  destruct (next_outcome w); try (rewrite C in H; discriminate).
  - cbv zeta in C.
    destruct (next_number (table w) (seq w) <=? max_int64) eqn:E;
      rewrite C in H; [|discriminate].
    inversion H; subst. apply Z.leb_le in E.
    pose proof (next_number_positive (table w) (seq w)). auto.
  - cbv zeta in C.
    destruct (next_number (table w) (seq w) <=? max_int64);
      rewrite C in H; discriminate.
Qed.

Lemma Get_runs_anyway (n : Z) (w : World) (msg : string) :
  next_outcome w = LastInsertIdFails msg ->
  Get n w
  = match lookup n (table w) with
    | None => ((zero_Parcel, Some ErrNoRows), failed ErrNoRows (stmt_Get n) w)
    | Some r =>
        match Scan r zero_Parcel with
        | (p, Some e) => ((p, Some e), failed e (stmt_Get n) w)
        | (p, None) => ((p, None), receive (stmt_Get n) w)
        end
    end.
Proof.
  intros H. unfold Get, bind, QueryRow, Query. rewrite H.
  cbn [run Row_Scan pending broken]. rewrite select_number.
  unfold lookup. rewrite filter_head_find.
  destruct (filter (has_number n) (table w)) as [|r l]; cbn [hd_error].
  - reflexivity.
  - destruct (Scan r zero_Parcel) as [p [e|]]; reflexivity.
Qed.

Lemma Get_runs (n : Z) (w : World) :
  next_outcome w = Ok ->
  Get n w
  = match lookup n (table w) with
    | None => ((zero_Parcel, Some ErrNoRows), failed ErrNoRows (stmt_Get n) w)
    | Some r =>
        match Scan r zero_Parcel with
        | (p, Some e) => ((p, Some e), failed e (stmt_Get n) w)
        | (p, None) => ((p, None), receive (stmt_Get n) w)
        end
    end.
Proof.
  intros H. unfold Get, bind, QueryRow, Query. rewrite H.
  cbn [run Row_Scan pending broken]. rewrite select_number.
  unfold lookup. rewrite filter_head_find.
  destruct (filter (has_number n) (table w)) as [|r l]; cbn [hd_error].
  - reflexivity.
  - destruct (Scan r zero_Parcel) as [p [e|]]; reflexivity.
Qed.

(** The loop over complete rows reads them all, in order. *)
Lemma scan_loop_complete (ps acc : list Parcel) :
  scan_loop (map row_of_parcel ps) acc = inr (acc ++ ps).
Proof.
  revert acc. induction ps as [|p ps IH]; intros acc; cbn [scan_loop map].
  - now rewrite app_nil_r.
  - rewrite Scan_row_of_parcel. rewrite IH. now rewrite <- app_assoc.
Qed.

(** The loop stops at the first row that does not scan and keeps what it
    has read. *)
Lemma scan_loop_stops (ps acc : list Parcel) (bad : Row) (rest : list Row)
      (q : Parcel) (e : error) :
  Scan bad zero_Parcel = (q, Some e) ->
  scan_loop (map row_of_parcel ps ++ bad :: rest) acc = inl (acc ++ ps, e).
Proof.
  intros Hbad. revert acc.
  induction ps as [|p ps IH]; intros acc; cbn [scan_loop map app].
  - rewrite Hbad. now rewrite app_nil_r.
  - rewrite Scan_row_of_parcel. rewrite IH. now rewrite <- app_assoc.
Qed.

Lemma GetByClient_cases (c : Z) (w : World) :
  let st := stmt_GetByClient c in
  let found := filter (has_client c) (table w) in
  let finish (rows : list Row) (broken : option error) :=
    match scan_loop rows [] with
    | inl (res, e) => ((res, Some e), failed e st w)
    | inr res =>
        match broken with
        | Some e => ((res, Some e), failed e st w)
        | None => ((res, None), receive st w)
        end
    end in
  GetByClient c w
  = match next_outcome w with
    | Ok => finish found None
    | StmtFails msg => (([], Some (ErrDriver msg)), failed (ErrDriver msg) st w)
    | CursorFails k msg => finish (firstn k found) (Some (ErrDriver msg))
    | LastInsertIdFails _ => finish found None
    end.
Proof.
  cbv zeta. unfold GetByClient, bind, Query.
  destruct (next_outcome w); cbn [run pending broken]; try reflexivity.
  - rewrite select_client.
    destruct (scan_loop (filter (has_client c) (table w)) []) as [[res e]|res];
      reflexivity.
  - rewrite select_client.
    destruct (scan_loop (firstn delivered (filter (has_client c) (table w))) [])
      as [[res e]|res]; reflexivity.
  - rewrite select_client.
    destruct (scan_loop (filter (has_client c) (table w)) []) as [[res e]|res];
      reflexivity.
Qed.

(** ** A freshly added parcel *)

Lemma Add_adds (p : Parcel) (w w' : World) (n : Z) :
  Add p w = ((n, None), w') ->
  table w' = table w ++ [row_of_parcel (with_Number n p)] /\
  (forall r, In r (table w) -> r_number r <> n) /\
  sched w' = tl (sched w) /\ 1 <= n.
Proof.
  intros H. apply Add_success in H. destruct H as (_ & Hn & Hr & ->).
  repeat split; try reflexivity; try lia.
  intros r Hin. apply (next_number_fresh _ (seq w)) in Hin. lia.
Qed.

Lemma off_number_update (f : Row -> Row) (n : Z) (t : list Row) :
  (forall r, In r t -> r_number r <> n) ->
  map (fun r => if has_number n r then f r else r) t = t.
Proof.
  intros H. apply map_id_when. intros r Hin.
  apply H in Hin. apply has_number_false in Hin. now rewrite Hin.
Qed.

Lemma off_number_guarded_update (f : Row -> Row) (n : Z) (t : list Row) :
  (forall r, In r t -> r_number r <> n) ->
  map (fun r => if has_number n r && is_registered r then f r else r) t = t.
Proof.
  intros H. apply map_id_when. intros r Hin.
  apply H in Hin. apply has_number_false in Hin. now rewrite Hin.
Qed.

Lemma off_number_delete (n : Z) (t : list Row) :
  (forall r, In r t -> r_number r <> n) ->
  filter (fun r => negb (has_number n r && is_registered r)) t = t.
Proof.
  intros H. apply filter_all. intros r Hin.
  apply H in Hin. apply has_number_false in Hin. now rewrite Hin.
Qed.

Lemma lookup_last (t : list Row) (p : Parcel) :
  (forall r, In r t -> r_number r <> Number p) ->
  lookup (Number p) (t ++ [row_of_parcel p]) = Some (row_of_parcel p).
Proof. intros H. apply (lookup_fresh t (row_of_parcel p)). exact H. Qed.

Lemma Get_stored (p : Parcel) (w : World) :
  next_outcome w = Ok -> stored p w ->
  Get (Number p) w = ((p, None), receive (stmt_Get (Number p)) w).
Proof.
  unfold stored. intros Hok Hst. rewrite (Get_runs _ _ Hok), Hst.
  now rewrite Scan_row_of_parcel.
Qed.

Lemma Get_absent (n : Z) (w : World) :
  next_outcome w = Ok -> lookup n (table w) = None ->
  Get n w = ((zero_Parcel, Some ErrNoRows), failed ErrNoRows (stmt_Get n) w).
Proof. intros Hok Hno. now rewrite (Get_runs _ _ Hok), Hno. Qed.

(** ** The deletion gate *)

Lemma Delete_runs (number : Z) (w : World) :
  next_outcome w = Ok ->
  exists w',
    Delete number w = (None, w') /\
    journal w' = journal w ++ [stmt_Delete number] /\
    sched w' = tl (sched w) /\
    table w' = filter (fun r => negb (has_number number r && is_registered r))
                 (table w).
Proof.
  intros Hok. pose proof (Delete_cases number w) as C. rewrite Hok in C.
  eexists. split; [exact C|]. cbn [journal sched table store receive].
  now rewrite delete_guard.
Qed.

Lemma Delete_keeps_iff (number : Z) (t : list Row) (r : Row) :
  In r (filter (fun r => negb (has_number number r && is_registered r)) t) <->
  In r t /\ ~ (r_number r = number /\ r_status r = Some ParcelStatusRegistered).
Proof.
  rewrite filter_In, negb_true_iff, andb_false_iff.
  rewrite <- has_number_true, <- is_registered_true.
  destruct (has_number number r), (is_registered r); intuition congruence.
Qed.

(** C1 -- [Delete] sends one DELETE whose WHERE clause carries the guard;
    when the backend runs it, it returns no error and the rows that go are
    exactly those with the given number and status [registered]; when no
    row has both, the table is as before and the statement reports zero
    rows affected.  A parcel added as [registered] and deleted is not found
    by [Get]; once its status is [sent], [Delete] leaves the table alone and
    [Get] returns the parcel. *)
Theorem Delete_gate :
  (forall number w,
      next_outcome w = Ok ->
      exists w',
        Delete number w = (None, w') /\
        journal w' = journal w
                     ++ [DELETE [NumberEq number; StatusEq ParcelStatusRegistered]] /\
        (forall r, In r (table w') <->
                   In r (table w) /\
                   ~ (r_number r = number /\
                      r_status r = Some ParcelStatusRegistered)) /\
        ((forall r, In r (table w) -> r_number r = number ->
                    r_status r <> Some ParcelStatusRegistered) ->
         table w' = table w /\
         fst (Exec (stmt_Delete number) w) = inr (mkResult 0 0))) /\
  (forall p w0 number w,
      Status p = ParcelStatusRegistered ->
      Add p w0 = ((number, None), w) ->
      quiet 2 w = true ->
      exists w1 w2,
        Delete number w = (None, w1) /\
        Get number w1 = ((zero_Parcel, Some ErrNoRows), w2)) /\
  (forall p w0 number w,
      Add p w0 = ((number, None), w) ->
      quiet 3 w = true ->
      exists w1 w2 w3,
        SetStatus number ParcelStatusSent w = (None, w1) /\
        Delete number w1 = (None, w2) /\
        table w2 = table w1 /\
        Get number w2
        = ((with_Status ParcelStatusSent (with_Number number p), None), w3)).
Proof.
  split; [|split].
  - intros number w Hok.
    destruct (Delete_runs number w Hok) as (w' & HD & HJ & _ & HT).
    exists w'. split; [exact HD|]. split; [exact HJ|]. split.
    + intros r. rewrite HT. apply Delete_keeps_iff.
    + intros Hno.
      assert (Hall : forall r, In r (table w) ->
                 has_number number r && is_registered r = false).
      { intros r Hin. destruct (has_number number r) eqn:E1; [|reflexivity].
        destruct (is_registered r) eqn:E2; [|reflexivity].
        apply has_number_true in E1. apply is_registered_true in E2.
        exfalso. exact (Hno r Hin E1 E2). }
      split.
      * rewrite HT. apply filter_all. intros r Hin. now rewrite Hall.
      * unfold Exec. rewrite Hok. cbn [run stmt_Delete fst].
        unfold affected, select_rows. rewrite filter_none; [reflexivity|].
        intros r Hin. rewrite matches_guard. now apply Hall.
  - intros p w0 number w Hreg HA Hq.
    apply Add_adds in HA. destruct HA as (HT & Hfresh & _ & _).
    quiet_next Hq Hok.
    destruct (Delete_runs number w Hok) as (w1 & HD & _ & HS & HT1).
    specialize (Hq w1 HS). apply quiet_step in Hq. destruct Hq as (Hok1 & _).
    exists w1. eexists. split; [exact HD|].
    apply Get_absent; [exact Hok1|]. apply lookup_none.
    intros r Hin. rewrite HT1 in Hin. apply Delete_keeps_iff in Hin.
    destruct Hin as (Hin & Hnot). rewrite HT in Hin. apply in_app_or in Hin.
    destruct Hin as [Hin|[<-|[]]].
    + now apply Hfresh.
    + exfalso. apply Hnot. cbn. now rewrite Hreg.
  - intros p w0 number w HA Hq.
    apply Add_adds in HA. destruct HA as (HT & Hfresh & _ & _).
    quiet_next Hq Hok.
    pose proof (SetStatus_cases number ParcelStatusSent w) as CS.
    rewrite Hok in CS.
    set (w1 := store _ _ _) in CS.
    assert (HT1 : table w1
                  = table w0
                    ++ [row_of_parcel
                          (with_Status ParcelStatusSent (with_Number number p))]).
    { subst w1. cbn [table store]. rewrite update_number, HT, map_app.
      rewrite off_number_update by exact Hfresh.
      cbn [map].
      replace (has_number number (row_of_parcel (with_Number number p)))
        with true by (symmetry; apply has_number_true; reflexivity).
      reflexivity. }
    specialize (Hq w1 eq_refl). quiet_next Hq Hok1.
    destruct (Delete_runs number w1 Hok1) as (w2 & HD & _ & HS2 & HT2).
    specialize (Hq w2 HS2). apply quiet_step in Hq. destruct Hq as (Hok2 & _).
    assert (HT2' : table w2 = table w1).
    { rewrite HT2, HT1, filter_app. rewrite off_number_delete by exact Hfresh.
      cbn [filter].
      replace (is_registered
                 (row_of_parcel
                    (with_Status ParcelStatusSent (with_Number number p))))
        with false by reflexivity.
      now rewrite andb_false_r. }
    exists w1, w2. eexists. split; [exact CS|]. split; [exact HD|].
    split; [exact HT2'|].
    apply (Get_stored (with_Status ParcelStatusSent (with_Number number p)) w2 Hok2).
    unfold stored. rewrite HT2', HT1. apply lookup_last. exact Hfresh.
Qed.

(** The three parts of the deletion gate on the empty store. *)
Lemma Delete_gate_witness :
  (exists w',
      Delete 1 (mkWorld [] 0 [] [] []) = (None, w') /\
      table w' = []) /\
  (exists w1 w2,
      Delete 1 (snd (Add (mkParcel 0 1000 "registered" "test" "t0")
                       (mkWorld [] 0 [] [] [])))
      = (None, w1) /\
      Get 1 w1 = ((zero_Parcel, Some ErrNoRows), w2)) /\
  (exists w1 w2 w3,
      SetStatus 1 "sent" (snd (Add (mkParcel 0 1000 "registered" "test" "t0")
                                 (mkWorld [] 0 [] [] [])))
      = (None, w1) /\
      Delete 1 w1 = (None, w2) /\
      table w2 = table w1 /\
      Get 1 w2 = ((mkParcel 1 1000 "sent" "test" "t0", None), w3)).
Proof.
  split; [|split].
  - destruct (proj1 Delete_gate 1 (mkWorld [] 0 [] [] []) eq_refl)
      as (w' & HD & _ & _ & Hno).
    exists w'. split; [exact HD|]. apply Hno. intros r [].
  - apply (proj1 (proj2 Delete_gate)
             (mkParcel 0 1000 "registered" "test" "t0") (mkWorld [] 0 [] [] []) 1);
      reflexivity.
  - apply (proj2 (proj2 Delete_gate)
             (mkParcel 0 1000 "registered" "test" "t0") (mkWorld [] 0 [] [] []) 1);
      reflexivity.
Defined.

(** ** The address gate and the status update *)

Lemma Forall2_map_of {A} (R : A -> A -> Prop) (f : A -> A) (l : list A) :
  (forall a, R a (f a)) -> Forall2 R l (map f l).
Proof. intros H. induction l; simpl; constructor; auto. Qed.

Lemma assign_number (a : Assign) (r : Row) : r_number (assign a r) = r_number r.
Proof. destruct a; reflexivity. Qed.

Lemma lookup_map (f : Row -> Row) (n : Z) (t : list Row) :
  (forall r, r_number (f r) = r_number r) ->
  lookup n (map f t) = option_map f (lookup n t).
Proof.
  intros H. unfold lookup. induction t as [|r t IH]; simpl; [reflexivity|].
  unfold has_number at 1. rewrite H. fold (has_number n r).
  destruct (has_number n r); [reflexivity|exact IH].
Qed.

Lemma no_match_unaffected (wh : list Cond) (t : list Row) :
  (forall r, In r t -> matches wh r = false) -> affected wh t = 0.
Proof.
  intros H. unfold affected, select_rows. now rewrite filter_none.
Qed.

Lemma SetAddress_runs (number : Z) (address : string) (w : World) :
  next_outcome w = Ok ->
  exists w',
    SetAddress number address w = (None, w') /\
    journal w' = journal w ++ [stmt_SetAddress number address] /\
    sched w' = tl (sched w) /\
    table w' = map (fun r => if has_number number r && is_registered r
                             then assign (SetAddressTo address) r else r)
                 (table w).
Proof.
  intros Hok. pose proof (SetAddress_cases number address w) as C.
  rewrite Hok in C. eexists. split; [exact C|].
  cbn [journal sched table store receive]. now rewrite update_guard.
Qed.

Lemma SetStatus_runs (number : Z) (status : string) (w : World) :
  next_outcome w = Ok ->
  exists w',
    SetStatus number status w = (None, w') /\
    journal w' = journal w ++ [stmt_SetStatus number status] /\
    sched w' = tl (sched w) /\
    table w' = map (fun r => if has_number number r
                             then assign (SetStatusTo status) r else r)
                 (table w).
Proof.
  intros Hok. pose proof (SetStatus_cases number status w) as C.
  rewrite Hok in C. eexists. split; [exact C|].
  cbn [journal sched table store receive]. now rewrite update_number.
Qed.

(** C2 -- [SetAddress] sends one UPDATE whose WHERE clause carries the
    status guard; when the backend runs it, it returns no error, and row by
    row the address is replaced exactly where the number is the given one
    and the status is [registered], every other row staying as it is; when
    no row has both, the table is as before and the statement reports zero
    rows affected.  For a stored parcel, [Get] afterwards returns it with the
    new address if it was [registered] and unchanged if it was not. *)
Theorem SetAddress_gate :
  (forall number address w,
      next_outcome w = Ok ->
      exists w',
        SetAddress number address w = (None, w') /\
        journal w' = journal w
                     ++ [UPDATE (SetAddressTo address)
                           [NumberEq number; StatusEq ParcelStatusRegistered]] /\
        Forall2 (fun r r' =>
                   (r_number r = number /\
                    r_status r = Some ParcelStatusRegistered /\
                    r' = mkRow (r_number r) (r_client r) (r_status r)
                           (Some address) (r_created_at r)) \/
                   (~ (r_number r = number /\
                       r_status r = Some ParcelStatusRegistered) /\
                    r' = r))
                (table w) (table w') /\
        ((forall r, In r (table w) -> r_number r = number ->
                    r_status r <> Some ParcelStatusRegistered) ->
         table w' = table w /\
         fst (Exec (stmt_SetAddress number address) w) = inr (mkResult 0 0))) /\
  (forall p address w,
      stored p w ->
      quiet 2 w = true ->
      exists w1 w2,
        SetAddress (Number p) address w = (None, w1) /\
        Get (Number p) w1
        = ((if String.eqb (Status p) ParcelStatusRegistered
            then with_Address address p else p, None), w2)).
Proof.
  split.
  - intros number address w Hok.
    destruct (SetAddress_runs number address w Hok) as (w' & HS & HJ & _ & HT).
    exists w'. split; [exact HS|]. split; [exact HJ|]. split.
    + rewrite HT. apply Forall2_map_of. intros r.
      destruct (has_number number r) eqn:E1; cbn [andb].
      * destruct (is_registered r) eqn:E2.
        -- left. apply has_number_true in E1. apply is_registered_true in E2.
           auto.
        -- right. split; [|reflexivity]. intros [_ Hr].
           apply is_registered_true in Hr. congruence.
      * right. split; [|reflexivity]. intros [Hn _].
        apply has_number_true in Hn. congruence.
    + intros Hno.
      assert (Hall : forall r, In r (table w) ->
                 has_number number r && is_registered r = false).
      { intros r Hin. destruct (has_number number r) eqn:E1; [|reflexivity].
        destruct (is_registered r) eqn:E2; [|reflexivity].
        apply has_number_true in E1. apply is_registered_true in E2.
        exfalso. exact (Hno r Hin E1 E2). }
      split.
      * rewrite HT. apply map_id_when. intros r Hin. now rewrite Hall.
      * unfold Exec. rewrite Hok. cbn [run stmt_SetAddress fst].
        rewrite no_match_unaffected; [reflexivity|].
        intros r Hin. rewrite matches_guard. now apply Hall.
  - intros p address w Hst Hq.
    quiet_next Hq Hok.
    destruct (SetAddress_runs (Number p) address w Hok) as (w1 & HS & _ & HSc & HT).
    specialize (Hq w1 HSc). apply quiet_step in Hq. destruct Hq as (Hok1 & _).
    assert (HN : Number (if String.eqb (Status p) ParcelStatusRegistered
                         then with_Address address p else p) = Number p)
      by (destruct (String.eqb (Status p) ParcelStatusRegistered); reflexivity).
    exists w1. eexists. split; [exact HS|].
    rewrite <- HN. apply Get_stored; [exact Hok1|]. unfold stored in *.
    rewrite HN, HT, lookup_map, Hst.
    + cbn [option_map]. f_equal.
      replace (has_number (Number p) (row_of_parcel p)) with true
        by (symmetry; apply has_number_true; reflexivity).
      cbn [andb]. unfold is_registered. cbn [row_of_parcel r_status].
      destruct (String.eqb (Status p) ParcelStatusRegistered); reflexivity.
    + intros r. destruct (has_number (Number p) r && is_registered r);
        [apply assign_number|reflexivity].
Qed.

(** The address gate on a store holding one [registered] parcel. *)
Lemma SetAddress_gate_witness :
  exists w1 w2,
    SetAddress 1 "new"
      (mkWorld [mkRow 1 (Some 1000) (Some "registered") (Some "test") (Some "t0")]
         1 [] [] [])
    = (None, w1) /\
    Get 1 w1 = ((mkParcel 1 1000 "registered" "new" "t0", None), w2).
Proof.
  apply (proj2 SetAddress_gate (mkParcel 1 1000 "registered" "test" "t0") "new"
           (mkWorld [mkRow 1 (Some 1000) (Some "registered") (Some "test") (Some "t0")]
              1 [] [] [])); reflexivity.
Defined.

(** C5 -- [SetStatus] sends one unguarded UPDATE; when the backend runs it,
    it returns no error and, whatever the new status and whatever the old
    one, every row with the given number gets the new status and every other
    row stays as it is; when no row has the number, the table is as before
    and the statement reports zero rows affected.  For a stored parcel,
    [Get] afterwards returns it with the new status. *)
Theorem SetStatus_sets :
  (forall number status w,
      next_outcome w = Ok ->
      exists w',
        SetStatus number status w = (None, w') /\
        journal w' = journal w ++ [UPDATE (SetStatusTo status) [NumberEq number]] /\
        Forall2 (fun r r' =>
                   (r_number r = number /\
                    r' = mkRow (r_number r) (r_client r) (Some status)
                           (r_address r) (r_created_at r)) \/
                   (r_number r <> number /\ r' = r))
                (table w) (table w') /\
        ((forall r, In r (table w) -> r_number r <> number) ->
         table w' = table w /\
         fst (Exec (stmt_SetStatus number status) w) = inr (mkResult 0 0))) /\
  (forall p status w,
      stored p w ->
      quiet 2 w = true ->
      exists w1 w2,
        SetStatus (Number p) status w = (None, w1) /\
        Get (Number p) w1 = ((with_Status status p, None), w2)).
Proof.
  split.
  - intros number status w Hok.
    destruct (SetStatus_runs number status w Hok) as (w' & HS & HJ & _ & HT).
    exists w'. split; [exact HS|]. split; [exact HJ|]. split.
    + rewrite HT. apply Forall2_map_of. intros r.
      destruct (has_number number r) eqn:E1.
      * left. apply has_number_true in E1. auto.
      * right. apply has_number_false in E1. auto.
    + intros Hno. split.
      * rewrite HT. now apply off_number_update.
      * unfold Exec. rewrite Hok. cbn [run stmt_SetStatus fst].
        rewrite no_match_unaffected; [reflexivity|].
        intros r Hin. rewrite matches_number. apply has_number_false. auto.
  - intros p status w Hst Hq.
    quiet_next Hq Hok.
    destruct (SetStatus_runs (Number p) status w Hok) as (w1 & HS & _ & HSc & HT).
    specialize (Hq w1 HSc). apply quiet_step in Hq. destruct Hq as (Hok1 & _).
    exists w1. eexists. split; [exact HS|].
    apply (Get_stored (with_Status status p) w1 Hok1). unfold stored in *.
    cbn [Number with_Status]. rewrite HT, lookup_map, Hst.
    + cbn [option_map]. f_equal.
      replace (has_number (Number p) (row_of_parcel p)) with true
        by (symmetry; apply has_number_true; reflexivity).
      reflexivity.
    + intros r. destruct (has_number (Number p) r);
        [apply assign_number|reflexivity].
Qed.

(** A delivered parcel set back to [registered]: no transition is refused. *)
Lemma SetStatus_sets_witness :
  exists w1 w2,
    SetStatus 7 "registered"
      (mkWorld [mkRow 7 (Some 1000) (Some "delivered") (Some "test") (Some "t0")]
         7 [] [] [])
    = (None, w1) /\
    Get 7 w1 = ((mkParcel 7 1000 "registered" "test" "t0", None), w2).
Proof.
  apply (proj2 SetStatus_sets (mkParcel 7 1000 "delivered" "test" "t0") "registered"
           (mkWorld [mkRow 7 (Some 1000) (Some "delivered") (Some "test") (Some "t0")]
              7 [] [] [])); reflexivity.
Defined.

(** ** Round trip *)

(** C3 -- When [Add] returns a number and no error, and the backend runs the
    next statement, [Get] of that number returns the parcel that was added,
    field for field, with [Number] set to the number [Add] returned; and
    [Add] does return a number whenever the backend runs the INSERT and a
    key is left. *)
Theorem Add_Get_round_trip (p : Parcel) (w : World) :
  (forall n w1,
      Add p w = ((n, None), w1) ->
      next_outcome w1 = Ok ->
      exists w2,
        Get n w1
        = ((mkParcel n (Client p) (Status p) (Address p) (CreatedAt p), None), w2) /\
        table w2 = table w1) /\
  (quiet 2 w = true ->
   next_number (table w) (seq w) <= max_int64 ->
   exists n w1 w2,
     Add p w = ((n, None), w1) /\ 1 <= n /\
     Get n w1
     = ((mkParcel n (Client p) (Status p) (Address p) (CreatedAt p), None), w2)).
Proof.
  assert (RT : forall n w1,
             Add p w = ((n, None), w1) -> next_outcome w1 = Ok ->
             Get n w1 = ((with_Number n p, None), receive (stmt_Get n) w1)).
  { intros n w1 HA Hok. apply Add_adds in HA. destruct HA as (HT & Hfresh & _ & _).
    apply (Get_stored (with_Number n p) w1 Hok).
    unfold stored. rewrite HT. apply lookup_last. exact Hfresh. }
  split.
  - intros n w1 HA Hok. eexists. split; [exact (RT n w1 HA Hok)|reflexivity].
  - intros Hq Hroom. quiet_next Hq Hok.
    pose proof (Add_cases p w) as C. rewrite Hok in C. cbv zeta in C.
    apply Z.leb_le in Hroom. rewrite Hroom in C.
    match type of C with _ = (_, ?w1) => specialize (Hq w1 eq_refl) end.
    apply quiet_step in Hq. destruct Hq as (Hok1 & _).
    do 3 eexists. split; [exact C|]. split; [apply next_number_positive|].
    exact (RT _ _ C Hok1).
Qed.

(** The scenario of the specification on the empty store. *)
Lemma Add_Get_round_trip_witness :
  exists n w1 w2,
    Add (mkParcel 0 1000 "registered" "test" "2024-01-01T00:00:00Z")
      (mkWorld [] 0 [] [] [])
    = ((n, None), w1) /\ 1 <= n /\
    Get n w1
    = ((mkParcel n 1000 "registered" "test" "2024-01-01T00:00:00Z", None), w2).
Proof.
  apply (proj2 (Add_Get_round_trip
                  (mkParcel 0 1000 "registered" "test" "2024-01-01T00:00:00Z")
                  (mkWorld [] 0 [] [] []))).
  - reflexivity.
  - vm_compute. discriminate.
Defined.

(** ** Errors *)

Lemma Scan_error (r : Row) (q p : Parcel) (e : error) :
  Scan r q = (p, Some e) -> exists k, e = ErrScan k.
Proof.
  unfold Scan. destruct (r_client r), (r_status r), (r_address r), (r_created_at r);
    intros H; inversion H; eauto.
Qed.

Lemma scan_loop_error (rows : list Row) (acc res : list Parcel) (e : error) :
  scan_loop rows acc = inl (res, e) -> exists k, e = ErrScan k.
Proof.
  revert acc. induction rows as [|r rows IH]; intros acc; cbn [scan_loop].
  - discriminate.
  - destruct (Scan r zero_Parcel) as [p [e'|]] eqn:E.
    + intros H. inversion H; subst. exact (Scan_error _ _ _ _ E).
    + apply IH.
Qed.

(** Whatever the outcome, [Get] moves nothing but the journal, the
    schedule and, on error, the log. *)
Lemma Get_world (n : Z) (w : World) :
  snd (Get n w)
  = match snd (fst (Get n w)) with
    | Some e => failed e (stmt_Get n) w
    | None => receive (stmt_Get n) w
    end.
Proof.
  unfold Get, bind, QueryRow, Query.
  destruct (next_outcome w); cbn [run]; unfold Row_Scan.
  - cbn [pending broken].
    destruct (select_rows [NumberEq n] (table w)) as [|r l]; [reflexivity|].
    destruct (Scan r zero_Parcel) as [p [e|]]; reflexivity.
  - reflexivity.
  - cbn [pending broken].
    destruct (firstn delivered (select_rows [NumberEq n] (table w))) as [|r l];
      [reflexivity|].
    destruct (Scan r zero_Parcel) as [p [e|]]; reflexivity.
  - cbn [pending broken].
    destruct (select_rows [NumberEq n] (table w)) as [|r l]; [reflexivity|].
    destruct (Scan r zero_Parcel) as [p [e|]]; reflexivity.
Qed.

Lemma GetByClient_world (c : Z) (w : World) :
  snd (GetByClient c w)
  = match snd (fst (GetByClient c w)) with
    | Some e => failed e (stmt_GetByClient c) w
    | None => receive (stmt_GetByClient c) w
    end.
Proof.
  rewrite GetByClient_cases. cbv zeta.
  destruct (next_outcome w).
  - destruct (scan_loop _ _) as [[res e]|res]; reflexivity.
  - reflexivity.
  - destruct (scan_loop _ _) as [[res e]|res]; reflexivity.
  - destruct (scan_loop _ _) as [[res e]|res]; reflexivity.
Qed.

(** [Get] answers [ErrNoRows] only when the backend ran the query to its
    end and found no row. *)
Lemma Get_ErrNoRows (n : Z) (w w' : World) (p : Parcel) :
  Get n w = ((p, Some ErrNoRows), w') ->
  (forall msg, next_outcome w <> StmtFails msg) /\
  (forall k msg, next_outcome w <> CursorFails k msg) /\
  lookup n (table w) = None.
Proof.
  destruct (next_outcome w) eqn:Hok.
  - rewrite (Get_runs n w Hok). destruct (lookup n (table w)) as [r|].
    + destruct (Scan r zero_Parcel) as [q [e|]] eqn:E; intros H; inversion H; subst.
      apply Scan_error in E. destruct E as [k E]. discriminate.
    + intros _. repeat split; intros; discriminate.
  - unfold Get, bind, QueryRow, Query. rewrite Hok. cbn. discriminate.
  - unfold Get, bind, QueryRow, Query. rewrite Hok. cbn [run]. unfold Row_Scan.
    cbn [pending broken].
    destruct (firstn delivered (select_rows [NumberEq n] (table w))) as [|r l].
    + cbn. discriminate.
    + destruct (Scan r zero_Parcel) as [q [e|]] eqn:E; intros H; inversion H; subst.
      apply Scan_error in E. destruct E as [k E]. discriminate.
  - rewrite (Get_runs_anyway n w _ Hok). destruct (lookup n (table w)) as [r|].
    + destruct (Scan r zero_Parcel) as [q [e|]] eqn:E; intros H; inversion H; subst.
      apply Scan_error in E. destruct E as [k E]. discriminate.
    + intros _. repeat split; intros; discriminate.
Qed.

(** An [Add] that returns an error returns [0] and an error of the driver;
    nothing is stored, unless the INSERT ran and only its result failed to
    tell the key: then the row is stored and the error logged. *)
Lemma Add_error (p : Parcel) (w w' : World) (n : Z) (e : error) :
  Add p w = ((n, Some e), w') ->
  n = 0 /\ (exists msg, e = ErrDriver msg) /\
  (w' = failed e (stmt_Add p) w \/
   exists msg,
     next_outcome w = LastInsertIdFails msg /\ e = ErrDriver msg /\
     next_number (table w) (seq w) <= max_int64 /\
     w' = snd (log_Println e
                 (store (table w
                         ++ [row_of_parcel
                               (with_Number (next_number (table w) (seq w)) p)])
                    (next_number (table w) (seq w))
                    (receive (stmt_Add p) w)))).
Proof.
  pose proof (Add_cases p w) as C. destruct (next_outcome w).
  - cbv zeta in C. destruct (next_number (table w) (seq w) <=? max_int64);
      rewrite C; intros H; inversion H; subst; eauto.
  - rewrite C; intros H; inversion H; subst; eauto.
  - rewrite C; intros H; inversion H; subst; eauto.
  - cbv zeta in C.
    destruct (next_number (table w) (seq w) <=? max_int64) eqn:E;
      rewrite C; intros H; inversion H; subst; [|eauto].
    apply Z.leb_le in E. split; [reflexivity|]. split; [eauto|].
    right. exists msg. auto.
Qed.

Lemma SetStatus_error (n : Z) (s : string) (w w' : World) (e : error) :
  SetStatus n s w = (Some e, w') ->
  w' = failed e (stmt_SetStatus n s) w /\ exists msg, e = ErrDriver msg.
Proof.
  pose proof (SetStatus_cases n s w) as C.
  destruct (next_outcome w); rewrite C; intros H; inversion H; subst; eauto.
Qed.

Lemma SetAddress_error (n : Z) (a : string) (w w' : World) (e : error) :
  SetAddress n a w = (Some e, w') ->
  w' = failed e (stmt_SetAddress n a) w /\ exists msg, e = ErrDriver msg.
Proof.
  pose proof (SetAddress_cases n a w) as C.
  destruct (next_outcome w); rewrite C; intros H; inversion H; subst; eauto.
Qed.

Lemma Delete_error (n : Z) (w w' : World) (e : error) :
  Delete n w = (Some e, w') ->
  w' = failed e (stmt_Delete n) w /\ exists msg, e = ErrDriver msg.
Proof.
  pose proof (Delete_cases n w) as C.
  destruct (next_outcome w); rewrite C; intros H; inversion H; subst; eauto.
Qed.

Lemma GetByClient_error (c : Z) (w w' : World) (ps : list Parcel) (e : error) :
  GetByClient c w = ((ps, Some e), w') ->
  w' = failed e (stmt_GetByClient c) w /\ e <> ErrNoRows.
Proof.
  intros H. pose proof (GetByClient_world c w) as W. rewrite H in W.
  cbn [fst snd] in W. split; [exact W|].
  rewrite GetByClient_cases in H. cbv zeta in H.
  destruct (next_outcome w).
  - destruct (scan_loop _ _) as [[res e']|res] eqn:E; inversion H; subst.
    apply scan_loop_error in E. destruct E as [k ->]. discriminate.
  - inversion H; subst. discriminate.
  - destruct (scan_loop _ _) as [[res e']|res] eqn:E; inversion H; subst.
    + apply scan_loop_error in E. destruct E as [k ->]. discriminate.
    + discriminate.
  - destruct (scan_loop _ _) as [[res e']|res] eqn:E; inversion H; subst.
    apply scan_loop_error in E. destruct E as [k ->]. discriminate.
Qed.

Lemma invoke_error (c : call) (w w' : World) (r : reply) (e : error) :
  invoke c w = ((r, Some e), w') ->
  w' = failed e (stmt_of c) w \/
  exists p msg,
    c = CallAdd p /\ r = RetNumber 0 /\
    next_outcome w = LastInsertIdFails msg /\ e = ErrDriver msg /\
    next_number (table w) (seq w) <= max_int64 /\
    w' = inserted_unreported p e w.
Proof.
  destruct c as [p|n|k|n s|n a|n]; unfold invoke; cbn [stmt_of].
  - destruct (Add p w) as [[m [e'|]] w1] eqn:E; intros H; inversion H; subst.
    apply Add_error in E. destruct E as (-> & _ & [E|(msg & Ho & He & Hr & E)]).
    + now left.
    + right. exists p, msg. repeat split; assumption.
  - pose proof (Get_world n w) as W.
    destruct (Get n w) as [[p [e'|]] w1]; intros H; inversion H; subst.
    left. exact W.
  - pose proof (GetByClient_world k w) as W.
    destruct (GetByClient k w) as [[ps [e'|]] w1]; intros H; inversion H; subst.
    left. exact W.
  - destruct (SetStatus n s w) as [[e'|] w1] eqn:E; intros H; inversion H; subst.
    left. now apply SetStatus_error in E.
  - destruct (SetAddress n a w) as [[e'|] w1] eqn:E; intros H; inversion H; subst.
    left. now apply SetAddress_error in E.
  - destruct (Delete n w) as [[e'|] w1] eqn:E; intros H; inversion H; subst.
    left. now apply Delete_error in E.
Qed.

Lemma scan_loop_first_error (rows : list Row) (acc : list Parcel) :
  match scan_loop rows acc with
  | inl (_, e) => first_scan_error rows = Some e
  | inr _ => first_scan_error rows = None
  end.
Proof.
  revert acc.
  induction rows as [|r rows IH]; intros acc; cbn [scan_loop first_scan_error].
  - reflexivity.
  - destruct (Scan r zero_Parcel) as [p [e|]]; cbn [snd]; [reflexivity|apply IH].
Qed.

(** What each method returns as its error, against what the storage
    reported. *)
Lemma Add_reports (p : Parcel) (w : World) :
  snd (fst (Add p w)) = storage_error (CallAdd p) w.
Proof.
  unfold storage_error, Add, bind. cbn [stmt_of]. unfold stmt_Add.
  destruct (Exec (INSERT (Client p) (Status p) (Address p) (CreatedAt p)) w)
    as [[e|res] w1]; cbn [fst]; [reflexivity|].
  destruct (LastInsertId res) as [e|id]; reflexivity.
Qed.

Lemma SetStatus_reports (n : Z) (s : string) (w : World) :
  fst (SetStatus n s w) = storage_error (CallSetStatus n s) w.
Proof.
  unfold storage_error, SetStatus, bind. cbn [stmt_of]. unfold stmt_SetStatus.
  destruct (Exec (UPDATE (SetStatusTo s) [NumberEq n]) w) as [[e|res] w1];
    reflexivity.
Qed.

Lemma SetAddress_reports (n : Z) (a : string) (w : World) :
  fst (SetAddress n a w) = storage_error (CallSetAddress n a) w.
Proof.
  unfold storage_error, SetAddress, bind. cbn [stmt_of]. unfold stmt_SetAddress.
  destruct (Exec (UPDATE (SetAddressTo a)
                    [NumberEq n; StatusEq ParcelStatusRegistered]) w)
    as [[e|res] w1]; reflexivity.
Qed.

Lemma Delete_reports (n : Z) (w : World) :
  fst (Delete n w) = storage_error (CallDelete n) w.
Proof.
  unfold storage_error, Delete, bind. cbn [stmt_of]. unfold stmt_Delete.
  destruct (Exec (DELETE [NumberEq n; StatusEq ParcelStatusRegistered]) w)
    as [[e|res] w1]; reflexivity.
Qed.

Lemma GetByClient_reports (c : Z) (w : World) :
  snd (fst (GetByClient c w)) = storage_error (CallGetByClient c) w.
Proof.
  unfold storage_error, GetByClient, bind. cbn [stmt_of]. unfold stmt_GetByClient.
  destruct (Query (SELECT [ClientEq c]) w) as [[e|rows] w1]; cbn [fst];
    [reflexivity|].
  pose proof (scan_loop_first_error (pending rows) []) as S.
  destruct (scan_loop (pending rows) []) as [[res e]|res]; rewrite S;
    [reflexivity|].
  destruct (broken rows); reflexivity.
Qed.

Lemma Get_reports (n : Z) (w : World) :
  snd (fst (Get n w)) = storage_error (CallGet n) w \/
  (storage_error (CallGet n) w = None /\ snd (fst (Get n w)) = Some ErrNoRows).
Proof.
  unfold storage_error, Get, bind, QueryRow. cbn [stmt_of]. unfold stmt_Get.
  destruct (Query (SELECT [NumberEq n]) w) as [[e|rows] w1];
    cbn [fst]; unfold Row_Scan.
  - left. reflexivity.
  - destruct (pending rows) as [|r l].
    + destruct (broken rows) as [e|]; [left|right]; auto.
    + destruct (Scan r zero_Parcel) as [p [e|]]; left; reflexivity.
Qed.

Lemma invoke_reports (c : call) (w : World) :
  snd (fst (invoke c w)) = storage_error c w \/
  (storage_error c w = None /\ (exists n, c = CallGet n) /\
   snd (fst (invoke c w)) = Some ErrNoRows).
Proof.
  destruct c as [p|n|k|n s|n a|n]; unfold invoke.
  - left. rewrite <- Add_reports. destruct (Add p w) as [[m e] w1]. reflexivity.
  - destruct (Get_reports n w) as [H|(H1 & H2)];
      destruct (Get n w) as [[p e] w1]; cbn [fst snd] in *; [now left|].
    right. eauto.
  - left. rewrite <- GetByClient_reports.
    destruct (GetByClient k w) as [[ps e] w1]. reflexivity.
  - left. rewrite <- SetStatus_reports. destruct (SetStatus n s w). reflexivity.
  - left. rewrite <- SetAddress_reports. destruct (SetAddress n a w). reflexivity.
  - left. rewrite <- Delete_reports. destruct (Delete n w). reflexivity.
Qed.

(** C7 -- For each of the six methods: whenever the storage reports an
    error during the call (the statement refused, the cursor broken, a row
    that does not scan, a result that cannot tell its key), the method
    returns that same error; an error a method returns is such an error, or
    [ErrNoRows] from [Get]; the backend has then received exactly one
    statement and the error has been logged once.  The stored table and the
    key counter are then what they were, with one exception: when the INSERT
    of [Add] has run and only its result fails to tell the key, [Add]
    returns [0] and that error while the new row stays stored. *)
Theorem failure_propagates (c : call) (w : World) :
  (forall e,
      storage_error c w = Some e ->
      exists r, fst (invoke c w) = (r, Some e)) /\
  (forall r e w',
      invoke c w = ((r, Some e), w') ->
      (storage_error c w = Some e \/
       (e = ErrNoRows /\ exists number, c = CallGet number)) /\
      journal w' = journal w ++ [stmt_of c] /\
      stderr w' = stderr w ++ [e] /\
      sched w' = tl (sched w) /\
      ((table w' = table w /\ seq w' = seq w) \/
       exists p msg,
         c = CallAdd p /\ r = RetNumber 0 /\
         next_outcome w = LastInsertIdFails msg /\ e = ErrDriver msg /\
         table w'
         = table w
           ++ [mkRow (next_number (table w) (seq w)) (Some (Client p))
                 (Some (Status p)) (Some (Address p)) (Some (CreatedAt p))] /\
         seq w' = next_number (table w) (seq w))) /\
  (forall r e w',
      invoke c w = ((r, Some e), w') ->
      (forall msg, next_outcome w <> LastInsertIdFails msg) ->
      table w' = table w /\ seq w' = seq w).
Proof.
  split; [|split].
  - intros e He. destruct (invoke_reports c w) as [H|(H & _)].
    + rewrite He in H. destruct (invoke c w) as [[r e'] w1]. cbn [fst snd] in *.
      exists r. now rewrite H.
    + rewrite He in H. discriminate.
  - intros r e w' H. split.
    + destruct (invoke_reports c w) as [R|(_ & Hc & R)];
        rewrite H in R; cbn [fst snd] in R.
      * left. now rewrite R.
      * right. inversion R. auto.
    + apply invoke_error in H.
      destruct H as [->|(p & msg & -> & -> & Ho & -> & _ & ->)].
      * repeat split; try reflexivity. left. split; reflexivity.
      * repeat split; try reflexivity. right. exists p, msg.
        repeat split; try reflexivity; assumption.
  - intros r e w' H Hno. apply invoke_error in H.
    destruct H as [->|(p & msg & _ & _ & Ho & _)].
    + split; reflexivity.
    + exfalso. exact (Hno msg Ho).
Qed.

(** A cursor that breaks before the first row: [Get] hands the driver's
    error on. *)
Lemma failure_propagates_witness :
  exists r,
    fst (invoke (CallGet 1)
           (mkWorld [mkRow 1 (Some 10) (Some "sent") (Some "a") (Some "t1")]
              1 [CursorFails 0 "interrupted"] [] []))
    = (r, Some (ErrDriver "interrupted")).
Proof.
  apply (proj1 (failure_propagates (CallGet 1)
                  (mkWorld [mkRow 1 (Some 10) (Some "sent") (Some "a") (Some "t1")]
                     1 [CursorFails 0 "interrupted"] [] []))).
  reflexivity.
Defined.

(** The INSERT of [Add] has run and its result cannot tell the key: [Add]
    returns the error, and the store is not what it was. *)
Lemma failure_propagates_counterexample :
  storage_error (CallAdd (mkParcel 0 1000 "registered" "test" "t0"))
    (mkWorld [] 0 [LastInsertIdFails "LastInsertId is not supported"] [] [])
  = Some (ErrDriver "LastInsertId is not supported") /\
  fst (Add (mkParcel 0 1000 "registered" "test" "t0")
         (mkWorld [] 0 [LastInsertIdFails "LastInsertId is not supported"] [] []))
  = (0, Some (ErrDriver "LastInsertId is not supported")) /\
  table (snd (Add (mkParcel 0 1000 "registered" "test" "t0")
                (mkWorld [] 0 [LastInsertIdFails "LastInsertId is not supported"]
                   [] [])))
  = [mkRow 1 (Some 1000) (Some "registered") (Some "test") (Some "t0")] /\
  table (snd (Add (mkParcel 0 1000 "registered" "test" "t0")
                (mkWorld [] 0 [LastInsertIdFails "LastInsertId is not supported"]
                   [] [])))
  <> table (mkWorld [] 0 [LastInsertIdFails "LastInsertId is not supported"] [] []).
Proof.
  repeat split; try reflexivity. cbn. discriminate.
Qed.

(** ** The table after a call *)

Lemma invoke_table_cases (c : call) (w w' : World) (r : reply) (e : option error) :
  invoke c w = ((r, e), w') ->
  table w' = table w \/
  (exists p n,
      c = CallAdd p /\
      table w' = table w ++ [row_of_parcel (with_Number n p)] /\
      (forall r0, In r0 (table w) -> r_number r0 <> n) /\
      ((r = RetNumber n /\ e = None) \/
       exists msg, next_outcome w = LastInsertIdFails msg /\
                   r = RetNumber 0 /\ e = Some (ErrDriver msg))) \/
  (exists n s,
      c = CallSetStatus n s /\
      table w' = map (fun r0 => if has_number n r0
                                then assign (SetStatusTo s) r0 else r0)
                   (table w)) \/
  (exists n a,
      c = CallSetAddress n a /\
      table w' = map (fun r0 => if has_number n r0 && is_registered r0
                                then assign (SetAddressTo a) r0 else r0)
                   (table w)) \/
  (exists n,
      c = CallDelete n /\
      table w' = filter (fun r0 => negb (has_number n r0 && is_registered r0))
                   (table w)).
Proof.
  destruct c as [p|n|k|n s|n a|n]; unfold invoke.
  - destruct (Add p w) as [[m [e'|]] w1] eqn:E; intros H; inversion H; subst.
    + apply Add_error in E.
      destruct E as (-> & _ & [->|(msg & Ho & -> & _ & ->)]); [now left|].
      right; left. exists p, (next_number (table w) (seq w)).
      split; [reflexivity|]. split; [reflexivity|]. split.
      * intros r0 Hin. apply (next_number_fresh _ (seq w)) in Hin. lia.
      * right. exists msg. auto.
    + apply Add_adds in E. destruct E as (HT & Hf & _ & _).
      right; left. exists p, m.
      split; [reflexivity|]. split; [exact HT|]. split; [exact Hf|].
      left. split; reflexivity.
  - pose proof (Get_world n w) as W.
    destruct (Get n w) as [[p e'] w1]; intros H; inversion H; subst.
    cbn [fst snd] in W. left. rewrite W. destruct e; reflexivity.
  - pose proof (GetByClient_world k w) as W.
    destruct (GetByClient k w) as [[ps e'] w1]; intros H; inversion H; subst.
    cbn [fst snd] in W. left. rewrite W. destruct e; reflexivity.
  - pose proof (SetStatus_cases n s w) as C.
    destruct (next_outcome w); rewrite C; intros H; inversion H; subst;
      try (now left);
      (right; right; left; exists n, s; split; [reflexivity|];
       cbn [table store]; apply update_number).
  - pose proof (SetAddress_cases n a w) as C.
    destruct (next_outcome w); rewrite C; intros H; inversion H; subst;
      try (now left);
      (right; right; right; left; exists n, a; split; [reflexivity|];
       cbn [table store]; apply update_guard).
  - pose proof (Delete_cases n w) as C.
    destruct (next_outcome w); rewrite C; intros H; inversion H; subst;
      try (now left);
      (right; right; right; right; exists n; split; [reflexivity|];
       cbn [table store]; apply delete_guard).
Qed.

Lemma issued_cons (r : reply * option error) (rs : list (reply * option error))
      (n : Z) :
  In n (issued rs) -> In n (issued (r :: rs)).
Proof.
  destruct r as [[m|p|ps|] [e|]]; cbn [issued]; auto. intros H. now right.
Qed.

Lemma invoke_sched (c : call) (w : World) :
  sched (snd (invoke c w)) = tl (sched w).
Proof.
  destruct c as [p|n|k|n s|n a|n]; unfold invoke.
  - pose proof (Add_cases p w) as C.
    destruct (next_outcome w); cbv zeta in C;
      destruct (next_number (table w) (seq w) <=? max_int64);
      rewrite C; reflexivity.
  - pose proof (Get_world n w) as W.
    destruct (Get n w) as [[p e] w1]. cbn [fst snd] in *. subst w1.
    destruct e; reflexivity.
  - pose proof (GetByClient_world k w) as W.
    destruct (GetByClient k w) as [[ps e] w1]. cbn [fst snd] in *. subst w1.
    destruct e; reflexivity.
  - pose proof (SetStatus_cases n s w) as C.
    destruct (next_outcome w); rewrite C; reflexivity.
  - pose proof (SetAddress_cases n a w) as C.
    destruct (next_outcome w); rewrite C; reflexivity.
  - pose proof (Delete_cases n w) as C.
    destruct (next_outcome w); rewrite C; reflexivity.
Qed.

Lemma reports_ids_next (w : World) (msg : string) :
  reports_ids w -> next_outcome w <> LastInsertIdFails msg.
Proof.
  unfold reports_ids, next_outcome. intros H Ho.
  destruct (sched w) as [|o l]; cbn [hd] in Ho; [discriminate|].
  apply (H msg). left. exact Ho.
Qed.

Lemma reports_ids_tl (w w' : World) :
  reports_ids w -> sched w' = tl (sched w) -> reports_ids w'.
Proof.
  unfold reports_ids. intros H Hs msg Hin. rewrite Hs in Hin.
  apply (H msg). destruct (sched w) as [|o l]; [exact Hin|now right].
Qed.

(** When the results of the driver tell their keys, every stored number
    was there at the start of the run or was returned by a successful [Add]
    of the run. *)
Lemma invoke_all_numbers (cs : list call) :
  forall w rs w',
    reports_ids w ->
    invoke_all cs w = (rs, w') ->
    forall row, In row (table w') ->
      (exists row0, In row0 (table w) /\ r_number row0 = r_number row) \/
      In (r_number row) (issued rs).
Proof.
  induction cs as [|c cs IH]; intros w rs w' Hids; cbn [invoke_all].
  - intros H row Hin. inversion H; subst. left. eauto.
  - pose proof (invoke_sched c w) as Hs.
    destruct (invoke c w) as [[r e] w1] eqn:E. cbn [snd] in Hs.
    pose proof (reports_ids_tl w w1 Hids Hs) as Hids1.
    destruct (invoke_all cs w1) as [rs' w2] eqn:E2.
    intros H row Hin. inversion H; subst.
    destruct (IH _ _ _ Hids1 E2 row Hin) as [(row1 & Hin1 & Hn1)|Hiss];
      [|right; now apply issued_cons].
    apply invoke_table_cases in E.
    destruct E as [HT|[(p & n & -> & HT & _ & Hret)
                      |[(n & s & -> & HT)|[(n & a & -> & HT)|(n & -> & HT)]]]];
      rewrite HT in Hin1.
    + left. eauto.
    + apply in_app_or in Hin1. destruct Hin1 as [Hin1|[<-|[]]].
      * left. eauto.
      * destruct Hret as [(-> & ->)|(msg & Ho & _)].
        -- right. cbn [issued]. left. now rewrite <- Hn1.
        -- exfalso. exact (reports_ids_next w msg Hids Ho).
    + apply in_map_iff in Hin1. destruct Hin1 as (row0 & <- & Hin0).
      left. exists row0. split; [exact Hin0|]. rewrite <- Hn1.
      destruct (has_number n row0); [now rewrite assign_number|reflexivity].
    + apply in_map_iff in Hin1. destruct Hin1 as (row0 & <- & Hin0).
      left. exists row0. split; [exact Hin0|]. rewrite <- Hn1.
      destruct (has_number n row0 && is_registered row0);
        [now rewrite assign_number|reflexivity].
    + apply filter_In in Hin1. left. exists row1. tauto.
Qed.

(** C4 -- [Get] of a number no stored row carries returns [ErrNoRows] when
    the backend runs the query; [Get] returns [ErrNoRows] only when the
    backend neither refused the query nor broke its cursor and no row
    carries the number, so the error tells "does not exist" from a broken
    storage or a broken row; no other method ever returns it; and in a
    store that started empty and whose driver tells the keys it generates,
    every number that no successful [Add] returned is answered with
    [ErrNoRows]. *)
Theorem Get_not_found :
  (forall number w,
      next_outcome w = Ok ->
      (forall r, In r (table w) -> r_number r <> number) ->
      exists w', Get number w = ((zero_Parcel, Some ErrNoRows), w')) /\
  (forall number w p w',
      Get number w = ((p, Some ErrNoRows), w') ->
      (forall msg, next_outcome w <> StmtFails msg) /\
      (forall k msg, next_outcome w <> CursorFails k msg) /\
      forall r, In r (table w) -> r_number r <> number) /\
  (forall c w r w',
      invoke c w = ((r, Some ErrNoRows), w') -> exists number, c = CallGet number) /\
  (forall cs w rs w' number,
      table w = [] ->
      reports_ids w ->
      invoke_all cs w = (rs, w') ->
      ~ In number (issued rs) ->
      next_outcome w' = Ok ->
      exists w'', Get number w' = ((zero_Parcel, Some ErrNoRows), w'')).
Proof.
  split; [|split; [|split]].
  - intros number w Hok Hno. eexists. apply Get_absent; [exact Hok|].
    now apply lookup_none.
  - intros number w p w' H. apply Get_ErrNoRows in H.
    destruct H as (H1 & H2 & Hno).
    split; [exact H1|]. split; [exact H2|]. now apply lookup_none.
  - intros c w r w'. destruct c as [p|n|k|n s|n a|n]; unfold invoke.
    + destruct (Add p w) as [[m [e'|]] w1] eqn:E; intros H; inversion H; subst.
      apply Add_error in E. destruct E as (_ & (msg & Hm) & _). discriminate.
    + eauto.
    + destruct (GetByClient k w) as [[ps [e'|]] w1] eqn:E; intros H;
        inversion H; subst.
      apply GetByClient_error in E. destruct E as (_ & Hne). congruence.
    + destruct (SetStatus n s w) as [[e'|] w1] eqn:E; intros H; inversion H; subst.
      apply SetStatus_error in E. destruct E as (_ & msg & Hm). discriminate.
    + destruct (SetAddress n a w) as [[e'|] w1] eqn:E; intros H; inversion H; subst.
      apply SetAddress_error in E. destruct E as (_ & msg & Hm). discriminate.
    + destruct (Delete n w) as [[e'|] w1] eqn:E; intros H; inversion H; subst.
      apply Delete_error in E. destruct E as (_ & msg & Hm). discriminate.
  - intros cs w rs w' number Hempty Hids Hrun Hnot Hok.
    eexists. apply Get_absent; [exact Hok|]. apply lookup_none.
    intros row Hin Hn.
    destruct (invoke_all_numbers cs w rs w' Hids Hrun row Hin)
      as [(row0 & Hin0 & _)|Hi].
    + rewrite Hempty in Hin0. exact Hin0.
    + apply Hnot. now rewrite <- Hn.
Qed.

(** [Get] of a number the store never handed out. *)
Lemma Get_not_found_witness :
  exists w'',
    Get 2 (snd (invoke_all
                  [CallAdd (mkParcel 0 1000 "registered" "test" "t0")]
                  (mkWorld [] 0 [] [] [])))
    = ((zero_Parcel, Some ErrNoRows), w'').
Proof.
  apply (proj2 (proj2 (proj2 Get_not_found))
           [CallAdd (mkParcel 0 1000 "registered" "test" "t0")]
           (mkWorld [] 0 [] [] [])
           (fst (invoke_all [CallAdd (mkParcel 0 1000 "registered" "test" "t0")]
                   (mkWorld [] 0 [] [] [])))).
  - reflexivity.
  - intros msg [].
  - reflexivity.
  - vm_compute. intros [H|[]]. discriminate.
  - reflexivity.
Defined.

(** In a store that started empty, [Add] stores a row and fails to read its
    key: number 1 was never returned by [Add], and [Get] finds it. *)
Lemma Get_not_found_counterexample :
  fst (invoke_all [CallAdd (mkParcel 0 1000 "registered" "test" "t0")]
         (mkWorld [] 0 [LastInsertIdFails "LastInsertId is not supported"] [] []))
  = [(RetNumber 0, Some (ErrDriver "LastInsertId is not supported"))] /\
  issued (fst (invoke_all [CallAdd (mkParcel 0 1000 "registered" "test" "t0")]
                 (mkWorld [] 0 [LastInsertIdFails "LastInsertId is not supported"]
                    [] [])))
  = [] /\
  fst (Get 1 (snd (invoke_all [CallAdd (mkParcel 0 1000 "registered" "test" "t0")]
                     (mkWorld [] 0
                        [LastInsertIdFails "LastInsertId is not supported"] [] []))))
  = (mkParcel 1 1000 "registered" "test" "t0", None).
Proof. repeat split. Qed.

(** ** Parcels of a client *)

Lemma row_of_parcel_inj (p q : Parcel) :
  row_of_parcel p = row_of_parcel q -> p = q.
Proof. destruct p, q. unfold row_of_parcel. cbn. intros H. now inversion H. Qed.

Lemma has_client_row_of_parcel (c : Z) (p : Parcel) :
  has_client c (row_of_parcel p) = true <-> Client p = c.
Proof. rewrite has_client_true. cbn. split; congruence. Qed.

Lemma complete_rows (t : list Row) :
  Forall complete t -> exists ps, t = map row_of_parcel ps.
Proof.
  induction 1 as [|r t [p ->] _ [ps ->]].
  - now exists [].
  - now exists (p :: ps).
Qed.

Lemma assign_complete (a : Assign) (r : Row) : complete r -> complete (assign a r).
Proof.
  intros [p ->]. destruct a as [s|s].
  - now exists (with_Status s p).
  - now exists (with_Address s p).
Qed.

Lemma invoke_complete (c : call) (w w' : World) (r : reply) (e : option error) :
  invoke c w = ((r, e), w') ->
  Forall complete (table w) -> Forall complete (table w').
Proof.
  intros H Hc. apply invoke_table_cases in H.
  destruct H as [HT|[(p & n & _ & HT & _ & _)
                    |[(n & s & _ & HT)|[(n & a & _ & HT)|(n & _ & HT)]]]];
    rewrite HT.
  - exact Hc.
  - apply Forall_app. split; [exact Hc|]. constructor; [|constructor].
    now exists (with_Number n p).
  - rewrite Forall_forall in *. intros x Hx. apply in_map_iff in Hx.
    destruct Hx as (r0 & <- & Hin).
    destruct (has_number n r0); auto using assign_complete.
  - rewrite Forall_forall in *. intros x Hx. apply in_map_iff in Hx.
    destruct Hx as (r0 & <- & Hin).
    destruct (has_number n r0 && is_registered r0); auto using assign_complete.
  - rewrite Forall_forall in *. intros x Hx. apply filter_In in Hx.
    apply Hc. tauto.
Qed.

Lemma invoke_all_complete (cs : list call) :
  forall w rs w',
    invoke_all cs w = (rs, w') ->
    Forall complete (table w) -> Forall complete (table w').
Proof.
  induction cs as [|c cs IH]; intros w rs w'; cbn [invoke_all].
  - intros H. now inversion H.
  - destruct (invoke c w) as [[r e] w1] eqn:E.
    destruct (invoke_all cs w1) as [rs' w2] eqn:E2.
    intros H Hc. inversion H; subst.
    eapply IH; [exact E2|]. eapply invoke_complete; eauto.
Qed.

Lemma GetByClient_runs (client : Z) (w : World) (ps : list Parcel) :
  next_outcome w = Ok ->
  filter (has_client client) (table w) = map row_of_parcel ps ->
  GetByClient client w = ((ps, None), receive (stmt_GetByClient client) w).
Proof.
  intros Hok Hrows. rewrite GetByClient_cases. cbv zeta.
  rewrite Hok, Hrows, scan_loop_complete. reflexivity.
Qed.

Lemma client_rows (client : Z) (t : list Row) (ps : list Parcel) :
  filter (has_client client) t = map row_of_parcel ps ->
  forall p, In p ps <-> In (row_of_parcel p) t /\ Client p = client.
Proof.
  intros Hrows p. rewrite <- has_client_row_of_parcel, <- filter_In, Hrows.
  rewrite in_map_iff. split.
  - intros Hin. now exists p.
  - intros (q & Hq & Hin). apply row_of_parcel_inj in Hq. now subst.
Qed.

(** C6 -- When the backend runs the query and the rows of the client are
    rows of parcels, [GetByClient] returns, without error and in storage
    order, exactly the stored parcels whose [Client] is the given one: a
    parcel is in the result if and only if it is stored and its client
    matches; a parcel just added for that client is among them with the
    fields it was added with; and with no row of that client the result is
    empty and there is still no error.  In a store that started empty and
    was only used through the six methods the rows always are rows of
    parcels. *)
Theorem GetByClient_filter :
  (forall client w ps,
      next_outcome w = Ok ->
      filter (has_client client) (table w) = map row_of_parcel ps ->
      exists w',
        GetByClient client w = ((ps, None), w') /\
        table w' = table w /\
        (forall p, In p ps <-> In (row_of_parcel p) (table w) /\ Client p = client) /\
        (forall p0 w0 n,
            Add p0 w0 = ((n, None), w) -> Client p0 = client ->
            In (mkParcel n (Client p0) (Status p0) (Address p0) (CreatedAt p0)) ps) /\
        ((forall r, In r (table w) -> r_client r <> Some client) -> ps = [])) /\
  (forall cs w0 rs w client,
      table w0 = [] ->
      invoke_all cs w0 = (rs, w) ->
      next_outcome w = Ok ->
      exists ps w',
        GetByClient client w = ((ps, None), w') /\
        forall p, In p ps <-> In (row_of_parcel p) (table w) /\ Client p = client).
Proof.
  split.
  - intros client w ps Hok Hrows. eexists.
    split; [exact (GetByClient_runs client w ps Hok Hrows)|].
    split; [reflexivity|].
    pose proof (client_rows client (table w) ps Hrows) as Hiff.
    split; [exact Hiff|]. split.
    + intros p0 w0 n HA Hc. apply Add_adds in HA. destruct HA as (HT & _).
      apply (Hiff (with_Number n p0)). split; [|exact Hc].
      rewrite HT. apply in_or_app. right. now left.
    + intros Hno. destruct ps as [|p ps]; [reflexivity|]. exfalso.
      destruct (proj1 (Hiff p) (or_introl eq_refl)) as (Hin & Hc).
      apply (Hno _ Hin). cbn. now rewrite Hc.
  - intros cs w0 rs w client Hempty Hrun Hok.
    assert (Hc : Forall complete (table w)).
    { eapply invoke_all_complete; [exact Hrun|]. rewrite Hempty. constructor. }
    assert (Hf : Forall complete (filter (has_client client) (table w))).
    { rewrite Forall_forall in *. intros r Hr. apply filter_In in Hr.
      apply Hc. tauto. }
    apply complete_rows in Hf. destruct Hf as [ps Hrows].
    exists ps. eexists.
    split; [exact (GetByClient_runs client w ps Hok Hrows)|].
    exact (client_rows client (table w) ps Hrows).
Qed.

(** Three parcels of one client added among parcels of two others. *)
Lemma GetByClient_filter_witness :
  exists ps w',
    GetByClient 42
      (snd (invoke_all
              [CallAdd (mkParcel 0 42 "registered" "a" "t1");
               CallAdd (mkParcel 0 7 "registered" "b" "t2");
               CallAdd (mkParcel 0 42 "registered" "c" "t3");
               CallAdd (mkParcel 0 9 "registered" "d" "t4");
               CallAdd (mkParcel 0 42 "registered" "e" "t5")]
              (mkWorld [] 0 [] [] [])))
    = ((ps, None), w') /\
    ps = [mkParcel 1 42 "registered" "a" "t1";
          mkParcel 3 42 "registered" "c" "t3";
          mkParcel 5 42 "registered" "e" "t5"].
Proof.
  destruct (proj2 GetByClient_filter
              [CallAdd (mkParcel 0 42 "registered" "a" "t1");
               CallAdd (mkParcel 0 7 "registered" "b" "t2");
               CallAdd (mkParcel 0 42 "registered" "c" "t3");
               CallAdd (mkParcel 0 9 "registered" "d" "t4");
               CallAdd (mkParcel 0 42 "registered" "e" "t5")]
              (mkWorld [] 0 [] [] []) _ _ 42 eq_refl eq_refl eq_refl)
    as (ps & w' & HG & _).
  exists ps, w'. split; [exact HG|].
  vm_compute in HG. now inversion HG.
Defined.

(** ** Partial results *)

(** C9 -- When the iteration breaks after some rows have been delivered,
    [GetByClient] returns the error together with the parcels read so far;
    when a row does not scan, it returns the scan error together with the
    parcels read before that row. *)
Theorem GetByClient_partial (client : Z) (w : World) (ps : list Parcel) :
  (forall k msg,
      next_outcome w = CursorFails k msg ->
      filter (has_client client) (table w) = map row_of_parcel ps ->
      exists w',
        GetByClient client w = ((firstn k ps, Some (ErrDriver msg)), w') /\
        table w' = table w) /\
  (forall bad rest q e,
      next_outcome w = Ok ->
      filter (has_client client) (table w) = map row_of_parcel ps ++ bad :: rest ->
      Scan bad zero_Parcel = (q, Some e) ->
      exists w',
        GetByClient client w = ((ps, Some e), w') /\ table w' = table w).
Proof.
  split.
  - intros k msg Hout Hrows. rewrite GetByClient_cases. cbv zeta.
    rewrite Hout, Hrows, firstn_map, scan_loop_complete.
    eexists. split; reflexivity.
  - intros bad rest q e Hok Hrows Hbad. rewrite GetByClient_cases. cbv zeta.
    rewrite Hok, Hrows, (scan_loop_stops ps [] bad rest q e Hbad).
    eexists. split; reflexivity.
Qed.

(** Both ways of stopping early, on a store of three parcels of client 42:
    the cursor breaks after two rows; the third row has no status. *)
Lemma GetByClient_partial_witness :
  (exists w',
      GetByClient 42
        (mkWorld [mkRow 1 (Some 42) (Some "registered") (Some "a") (Some "t1");
                  mkRow 2 (Some 42) (Some "sent") (Some "b") (Some "t2");
                  mkRow 3 (Some 42) (Some "sent") (Some "c") (Some "t3")]
           3 [CursorFails 2 "interrupted"] [] [])
      = (([mkParcel 1 42 "registered" "a" "t1"; mkParcel 2 42 "sent" "b" "t2"],
          Some (ErrDriver "interrupted")), w') /\
      table w'
      = [mkRow 1 (Some 42) (Some "registered") (Some "a") (Some "t1");
         mkRow 2 (Some 42) (Some "sent") (Some "b") (Some "t2");
         mkRow 3 (Some 42) (Some "sent") (Some "c") (Some "t3")]) /\
  (exists w',
      GetByClient 42
        (mkWorld [mkRow 1 (Some 42) (Some "registered") (Some "a") (Some "t1");
                  mkRow 2 (Some 42) (Some "sent") (Some "b") (Some "t2");
                  mkRow 3 (Some 42) None (Some "c") (Some "t3")]
           3 [] [] [])
      = (([mkParcel 1 42 "registered" "a" "t1"; mkParcel 2 42 "sent" "b" "t2"],
          Some (ErrScan 2)), w') /\
      table w'
      = [mkRow 1 (Some 42) (Some "registered") (Some "a") (Some "t1");
         mkRow 2 (Some 42) (Some "sent") (Some "b") (Some "t2");
         mkRow 3 (Some 42) None (Some "c") (Some "t3")]).
Proof.
  split.
  - apply (proj1 (GetByClient_partial 42
             (mkWorld [mkRow 1 (Some 42) (Some "registered") (Some "a") (Some "t1");
                       mkRow 2 (Some 42) (Some "sent") (Some "b") (Some "t2");
                       mkRow 3 (Some 42) (Some "sent") (Some "c") (Some "t3")]
                3 [CursorFails 2 "interrupted"] [] [])
             [mkParcel 1 42 "registered" "a" "t1"; mkParcel 2 42 "sent" "b" "t2";
              mkParcel 3 42 "sent" "c" "t3"]) 2%nat "interrupted");
      reflexivity.
  - apply (proj2 (GetByClient_partial 42
             (mkWorld [mkRow 1 (Some 42) (Some "registered") (Some "a") (Some "t1");
                       mkRow 2 (Some 42) (Some "sent") (Some "b") (Some "t2");
                       mkRow 3 (Some 42) None (Some "c") (Some "t3")]
                3 [] [] [])
             [mkParcel 1 42 "registered" "a" "t1"; mkParcel 2 42 "sent" "b" "t2"])
             (mkRow 3 (Some 42) None (Some "c") (Some "t3")) []
             (mkParcel 3 42 "" "" ""));
      reflexivity.
Defined.

(** ** Frame *)

Lemma same_identity_refl (r : Row) : same_identity r r.
Proof. repeat split. Qed.

Lemma same_identity_assign (a : Assign) (r : Row) : same_identity r (assign a r).
Proof. destruct a; repeat split. Qed.

Lemma evolves_refl (t : list Row) : evolves t t.
Proof. induction t; constructor; auto using same_identity_refl. Qed.

Lemma evolves_map (f : Row -> Row) (t : list Row) :
  (forall r, same_identity r (f r)) -> evolves t (map f t).
Proof. intros H. induction t; simpl; constructor; auto. Qed.

Lemma evolves_filter (g : Row -> bool) (t : list Row) : evolves t (filter g t).
Proof.
  induction t as [|r t IH]; simpl; [constructor|].
  destruct (g r); constructor; auto using same_identity_refl.
Qed.

Lemma evolves_trans (a b c : list Row) :
  evolves a b -> evolves b c -> evolves a c.
Proof.
  intros H. revert c. induction H as [|r r' t t' Hid _ IH|r t t' _ IH]; intros c H2.
  - exact H2.
  - inversion H2 as [|x x' y y' Hid' H3|x y y' H3]; subst.
    + constructor; [|now apply IH].
      destruct Hid as (A1 & A2 & A3), Hid' as (B1 & B2 & B3).
      repeat split; congruence.
    + apply evolves_drop. now apply IH.
  - apply evolves_drop. now apply IH.
Qed.

Lemma evolves_in (t t' : list Row) :
  evolves t t' ->
  forall r', In r' t' -> exists r, In r t /\ same_identity r r'.
Proof.
  induction 1 as [|r r' t t' Hid _ IH|r t t' _ IH]; intros x Hx.
  - destruct Hx.
  - destruct Hx as [<-|Hx].
    + exists r. split; [now left|exact Hid].
    + destruct (IH x Hx) as (y & Hy & Hxy). exists y. split; [now right|exact Hxy].
  - destruct (IH x Hx) as (y & Hy & Hxy). exists y. split; [now right|exact Hxy].
Qed.

(** What a mutating call does to the table, whatever the outcome: it
    rewrites rows of its number in place, or it drops rows of its number. *)
Lemma mutation_table (c : call) (number : Z) (w : World) :
  targets c = Some number ->
  (exists f,
      (forall r, same_identity r (f r)) /\
      (forall r, r_number r <> number -> f r = r) /\
      table (snd (invoke c w)) = map f (table w)) \/
  (exists g,
      (forall r, r_number r <> number -> g r = true) /\
      table (snd (invoke c w)) = filter g (table w)).
Proof.
  intros Ht. destruct (invoke c w) as [[r e] w'] eqn:E. cbn [snd].
  apply invoke_table_cases in E.
  destruct E as [HT|[(p & n & -> & _)
                    |[(n & s & -> & HT)|[(n & a & -> & HT)|(n & -> & HT)]]]];
    cbn [targets] in Ht; try discriminate.
  - left. exists (fun r0 => r0). repeat split; auto.
    now rewrite map_id.
  - inversion Ht; subst. left. eexists. split; [|split; [|exact HT]].
    + intros r0. cbv beta. destruct (has_number number r0);
        auto using same_identity_assign, same_identity_refl.
    + intros r0 Hn. apply has_number_false in Hn. cbv beta. now rewrite Hn.
  - inversion Ht; subst. left. eexists. split; [|split; [|exact HT]].
    + intros r0. cbv beta. destruct (has_number number r0 && is_registered r0);
        auto using same_identity_assign, same_identity_refl.
    + intros r0 Hn. apply has_number_false in Hn. cbv beta. now rewrite Hn.
  - inversion Ht; subst. right. eexists. split; [|exact HT].
    intros r0 Hn. apply has_number_false in Hn. cbv beta. now rewrite Hn.
Qed.

Lemma is_mutation_targets (c : call) :
  is_mutation c = true -> exists number, targets c = Some number.
Proof. destruct c; cbn; try discriminate; eauto. Qed.

Lemma mutations_evolve (cs : list call) :
  forall w,
    forallb is_mutation cs = true ->
    evolves (table w) (table (snd (invoke_all cs w))).
Proof.
  induction cs as [|c cs IH]; intros w; cbn [forallb invoke_all].
  - intros _. apply evolves_refl.
  - intros H. apply andb_true_iff in H. destruct H as (Hc & Hcs).
    apply is_mutation_targets in Hc. destruct Hc as [number Ht].
    pose proof (mutation_table c number w Ht) as M.
    destruct (invoke c w) as [r w1]. cbn [snd] in M.
    specialize (IH w1 Hcs).
    destruct (invoke_all cs w1) as [rs w2]. cbn [snd] in *.
    apply evolves_trans with (b := table w1); [|exact IH].
    destruct M as [(f & Hid & _ & ->)|(g & _ & ->)].
    + now apply evolves_map.
    + apply evolves_filter.
Qed.

(** C8 -- Through any run of [SetStatus], [SetAddress] and [Delete] calls,
    whatever the backend does with each, the rows of the final table are
    rows of the initial one, in their order, with their number, client and
    creation time; [SetStatus] leaves a row as it is or replaces only its
    status, and that only in rows of its number; [SetAddress] likewise with
    the address. *)
Theorem identity_preserved :
  (forall cs w,
      forallb is_mutation cs = true ->
      evolves (table w) (table (snd (invoke_all cs w))) /\
      forall r', In r' (table (snd (invoke_all cs w))) ->
                 exists r, In r (table w) /\
                           r_number r' = r_number r /\
                           r_client r' = r_client r /\
                           r_created_at r' = r_created_at r) /\
  (forall number status w,
      Forall2 (fun r r' =>
                 r' = r \/
                 (r_number r = number /\
                  r' = mkRow (r_number r) (r_client r) (Some status)
                         (r_address r) (r_created_at r)))
              (table w) (table (snd (SetStatus number status w)))) /\
  (forall number address w,
      Forall2 (fun r r' =>
                 r' = r \/
                 (r_number r = number /\
                  r' = mkRow (r_number r) (r_client r) (r_status r)
                         (Some address) (r_created_at r)))
              (table w) (table (snd (SetAddress number address w)))).
Proof.
  split; [|split].
  - intros cs w Hm. pose proof (mutations_evolve cs w Hm) as Hev.
    split; [exact Hev|]. intros r' Hin.
    destruct (evolves_in _ _ Hev r' Hin) as (r & Hr & Hid). exists r. auto.
  - intros number status w. pose proof (SetStatus_cases number status w) as C.
    destruct (next_outcome w); rewrite C; cbn [snd table store failed receive
                                               log_Println].
    + rewrite update_number. apply Forall2_map_of. intros r.
      destruct (has_number number r) eqn:E; [|now left].
      right. apply has_number_true in E. auto.
    + rewrite <- (map_id (table w)) at 2. apply Forall2_map_of. now left.
    + rewrite <- (map_id (table w)) at 2. apply Forall2_map_of. now left.
    + rewrite update_number. apply Forall2_map_of. intros r.
      destruct (has_number number r) eqn:E; [|now left].
      right. apply has_number_true in E. auto.
  - intros number address w. pose proof (SetAddress_cases number address w) as C.
    destruct (next_outcome w); rewrite C; cbn [snd table store failed receive
                                               log_Println].
    + rewrite update_guard. apply Forall2_map_of. intros r.
      destruct (has_number number r) eqn:E; [|now left]. cbn [andb].
      destruct (is_registered r); [|now left].
      right. apply has_number_true in E. auto.
    + rewrite <- (map_id (table w)) at 2. apply Forall2_map_of. now left.
    + rewrite <- (map_id (table w)) at 2. apply Forall2_map_of. now left.
    + rewrite update_guard. apply Forall2_map_of. intros r.
      destruct (has_number number r) eqn:E; [|now left]. cbn [andb].
      destruct (is_registered r); [|now left].
      right. apply has_number_true in E. auto.
Qed.

(** A run of the three mutations, one of them refused, on a store of two:
    the first parcel keeps its identity, the second is gone. *)
Lemma identity_preserved_witness :
  evolves
    [mkRow 1 (Some 10) (Some "registered") (Some "a") (Some "t1");
     mkRow 2 (Some 20) (Some "registered") (Some "b") (Some "t2")]
    [mkRow 1 (Some 10) (Some "registered") (Some "new") (Some "t1")].
Proof.
  exact (proj1 (proj1 identity_preserved
                  [CallSetAddress 1 "new"; CallSetStatus 1 "sent";
                   CallDelete 2; CallSetStatus 2 "delivered"]
                  (mkWorld
                     [mkRow 1 (Some 10) (Some "registered") (Some "a") (Some "t1");
                      mkRow 2 (Some 20) (Some "registered") (Some "b") (Some "t2")]
                     2 [Ok; StmtFails "busy"] [] [])
                  eq_refl)).
Defined.

(** ** Rows of other numbers *)

Lemma filter_off_map (f : Row -> Row) (n : Z) (t : list Row) :
  (forall r, same_identity r (f r)) ->
  (forall r, r_number r <> n -> f r = r) ->
  filter (fun r => negb (has_number n r)) (map f t)
  = filter (fun r => negb (has_number n r)) t.
Proof.
  intros Hid Hoff. induction t as [|r t IH]; simpl; [reflexivity|].
  assert (Hn : has_number n (f r) = has_number n r).
  { unfold has_number. destruct (Hid r) as (-> & _). reflexivity. }
  rewrite Hn. destruct (has_number n r) eqn:E; cbn [negb]; [exact IH|].
  apply has_number_false in E. rewrite (Hoff r E). now f_equal.
Qed.

Lemma filter_off_filter (g : Row -> bool) (n : Z) (t : list Row) :
  (forall r, r_number r <> n -> g r = true) ->
  filter (fun r => negb (has_number n r)) (filter g t)
  = filter (fun r => negb (has_number n r)) t.
Proof.
  intros Hoff. induction t as [|r t IH]; simpl; [reflexivity|].
  destruct (has_number n r) eqn:E; cbn [negb].
  - destruct (g r); simpl; [rewrite E|]; exact IH.
  - apply has_number_false in E. rewrite (Hoff r E). simpl.
    apply has_number_false in E. rewrite E. cbn [negb]. now f_equal.
Qed.

(** Under the primary key the rows of a number are at most one, at one
    place of the table. *)
Lemma split_at_number (n : Z) (t : list Row) :
  unique_numbers t ->
  exists before mid after,
    t = before ++ mid ++ after /\
    (List.length mid <= 1)%nat /\
    (forall r, In r mid -> r_number r = n) /\
    (forall r, In r before -> r_number r <> n) /\
    (forall r, In r after -> r_number r <> n).
Proof.
  unfold unique_numbers. induction t as [|r t IH]; cbn [map]; intros Hu.
  - exists [], [], [].
    split; [reflexivity|]. split; [cbn; lia|].
    split; [|split]; intros r [].
  - inversion Hu as [|x l Hnotin Hu']; subst.
    destruct (Z.eq_dec (r_number r) n) as [Heq|Hne].
    + exists [], [r], t.
      split; [reflexivity|]. split; [cbn; lia|]. split; [|split].
      * intros r0 [<-|[]]. exact Heq.
      * intros r0 [].
      * intros r0 Hin Hr0. apply Hnotin. apply in_map_iff. exists r0.
        split; [congruence|exact Hin].
    + destruct (IH Hu') as (before & mid & after & -> & Hlen & Hmid & Hb & Ha).
      exists (r :: before), mid, after.
      split; [reflexivity|]. split; [exact Hlen|]. split; [exact Hmid|].
      split; [|exact Ha].
      intros r0 [<-|Hin]; auto.
Qed.

(** C10 -- A [SetStatus], [SetAddress] or [Delete] call for a number,
    whatever the backend does with it, leaves the rows of every other
    number as they are, in number, in content and in order; and when
    numbers are unique in the table, the table changes at one place at
    most, which holds the one row of that number before the call and that
    row, rewritten or as it was, or nothing after it. *)
Theorem other_rows_untouched (c : call) (number : Z) (w : World) :
  targets c = Some number ->
  filter (fun r => negb (has_number number r)) (table (snd (invoke c w)))
  = filter (fun r => negb (has_number number r)) (table w) /\
  (forall r, r_number r <> number ->
             (In r (table (snd (invoke c w))) <-> In r (table w))) /\
  (unique_numbers (table w) ->
   exists before mid mid' after,
     table w = before ++ mid ++ after /\
     table (snd (invoke c w)) = before ++ mid' ++ after /\
     (List.length mid <= 1)%nat /\
     (List.length mid' <= List.length mid)%nat /\
     (forall r, In r mid -> r_number r = number) /\
     (forall r, In r mid' -> r_number r = number)).
Proof.
  intros Ht. pose proof (mutation_table c number w Ht) as M.
  assert (Hfilter :
            filter (fun r => negb (has_number number r)) (table (snd (invoke c w)))
            = filter (fun r => negb (has_number number r)) (table w)).
  { destruct M as [(f & Hid & Hoff & ->)|(g & Hoff & ->)].
    - now apply filter_off_map.
    - now apply filter_off_filter. }
  split; [exact Hfilter|]. split.
  - intros r Hn. apply has_number_false in Hn.
    assert (Hr : negb (has_number number r) = true) by now rewrite Hn.
    split; intros Hin.
    + assert (H : In r (filter (fun r => negb (has_number number r)) (table w))).
      { rewrite <- Hfilter. apply filter_In. auto. }
      apply filter_In in H. tauto.
    + assert (H : In r (filter (fun r => negb (has_number number r))
                          (table (snd (invoke c w))))).
      { rewrite Hfilter. apply filter_In. auto. }
      apply filter_In in H. tauto.
  - intros Hu.
    destruct (split_at_number number (table w) Hu)
      as (before & mid & after & HT & Hlen & Hmid & Hb & Ha).
    destruct M as [(f & Hid & Hoff & ->)|(g & Hoff & ->)]; rewrite HT.
    + exists before, mid, (map f mid), after. rewrite !map_app.
      rewrite (map_id_when f before) by (intros r Hr; apply Hoff; auto).
      rewrite (map_id_when f after) by (intros r Hr; apply Hoff; auto).
      repeat split; auto.
      * now rewrite length_map.
      * intros r Hr. apply in_map_iff in Hr. destruct Hr as (r0 & <- & Hr0).
        destruct (Hid r0) as (-> & _). auto.
    + exists before, mid, (filter g mid), after. rewrite !filter_app.
      rewrite (filter_all g before) by (intros r Hr; apply Hoff; auto).
      rewrite (filter_all g after) by (intros r Hr; apply Hoff; auto).
      repeat split; auto.
      * apply filter_length_le.
      * intros r Hr. apply filter_In in Hr. apply Hmid. tauto.
Qed.

(** A [Delete] between two other parcels. *)
Lemma other_rows_untouched_witness :
  filter (fun r => negb (has_number 2 r))
    (table (snd (invoke (CallDelete 2)
                   (mkWorld
                      [mkRow 1 (Some 10) (Some "sent") (Some "a") (Some "t1");
                       mkRow 2 (Some 20) (Some "registered") (Some "b") (Some "t2");
                       mkRow 3 (Some 10) (Some "registered") (Some "c") (Some "t3")]
                      3 [] [] []))))
  = [mkRow 1 (Some 10) (Some "sent") (Some "a") (Some "t1");
     mkRow 3 (Some 10) (Some "registered") (Some "c") (Some "t3")].
Proof.
  exact (proj1 (other_rows_untouched (CallDelete 2) 2
                  (mkWorld
                     [mkRow 1 (Some 10) (Some "sent") (Some "a") (Some "t1");
                      mkRow 2 (Some 20) (Some "registered") (Some "b") (Some "t2");
                      mkRow 3 (Some 10) (Some "registered") (Some "c") (Some "t3")]
                     3 [] [] [])
                  eq_refl)).
Defined.

(** ** The scenario of the specification

    Add, read back, change the address, mark as sent, try to delete, read
    again: the replies of the six calls on the empty store. *)
Example concrete_scenario :
  fst (invoke_all
         [CallAdd (mkParcel 0 1000 "registered" "test" "2024-01-01T00:00:00Z");
          CallGet 1;
          CallSetAddress 1 "new test address";
          CallSetStatus 1 "sent";
          CallDelete 1;
          CallGet 1]
         (mkWorld [] 0 [] [] []))
  = [(RetNumber 1, None);
     (RetParcel (mkParcel 1 1000 "registered" "test" "2024-01-01T00:00:00Z"), None);
     (RetNothing, None);
     (RetNothing, None);
     (RetNothing, None);
     (RetParcel (mkParcel 1 1000 "sent" "new test address" "2024-01-01T00:00:00Z"),
      None)].
Proof. reflexivity. Qed.

(** The last key: the INSERT is refused, [Add] returns [0] and the error,
    and the table is as it was. *)
Example Add_no_key_left :
  let w := mkWorld [mkRow max_int64 (Some 1) (Some "sent") (Some "a") (Some "t")]
             max_int64 [] [] [] in
  fst (Add (mkParcel 0 1000 "registered" "test" "t0") w)
  = (0, Some (ErrDriver "database or disk is full")) /\
  table (snd (Add (mkParcel 0 1000 "registered" "test" "t0") w)) = table w.
Proof. split; reflexivity. Qed.

(** * Further properties of the store *)

(** ** One statement per call *)

Lemma invoke_success (c : call) (w w' : World) (r : reply) :
  invoke c w = ((r, None), w') ->
  journal w' = journal w ++ [stmt_of c] /\ sched w' = tl (sched w) /\
  stderr w' = stderr w /\
  (seq w' = seq w \/ exists p n, c = CallAdd p /\ r = RetNumber n /\ seq w' = n).
Proof.
  destruct c as [p|n|k|n s|n a|n]; unfold invoke; cbn [stmt_of].
  - destruct (Add p w) as [[m [e'|]] w1] eqn:E; intros H; inversion H; subst.
    apply Add_success in E. destruct E as (_ & _ & _ & ->).
    repeat split; try reflexivity. right. now exists p, m.
  - pose proof (Get_world n w) as W.
    destruct (Get n w) as [[p [e'|]] w1]; intros H; inversion H; subst.
    cbn [fst snd] in W. subst w'. repeat split; try reflexivity. now left.
  - pose proof (GetByClient_world k w) as W.
    destruct (GetByClient k w) as [[ps [e'|]] w1]; intros H; inversion H; subst.
    cbn [fst snd] in W. subst w'. repeat split; try reflexivity. now left.
  - pose proof (SetStatus_cases n s w) as C.
    destruct (next_outcome w); rewrite C; intros H; inversion H; subst;
      (repeat split; try reflexivity; now left).
  - pose proof (SetAddress_cases n a w) as C.
    destruct (next_outcome w); rewrite C; intros H; inversion H; subst;
      (repeat split; try reflexivity; now left).
  - pose proof (Delete_cases n w) as C.
    destruct (next_outcome w); rewrite C; intros H; inversion H; subst;
      (repeat split; try reflexivity; now left).
Qed.

(** X1 -- Whatever the backend does, a call of any of the six methods sends
    exactly one statement, the one of that method; it logs the error it
    returns and nothing else; and the key counter moves only in an [Add]
    whose INSERT has run, to the number of the row it stored, which is the
    number returned when [Add] returns no error. *)
Theorem every_call_one_statement (c : call) (w w' : World) (r : reply)
        (e : option error) :
  invoke c w = ((r, e), w') ->
  journal w' = journal w ++ [stmt_of c] /\
  sched w' = tl (sched w) /\
  stderr w' = stderr w ++ match e with Some x => [x] | None => [] end /\
  (seq w' = seq w \/
   exists p,
     c = CallAdd p /\
     seq w' = next_number (table w) (seq w) /\
     table w'
     = table w
       ++ [mkRow (seq w') (Some (Client p)) (Some (Status p)) (Some (Address p))
             (Some (CreatedAt p))] /\
     (e = None -> r = RetNumber (seq w'))).
Proof.
  intros H. destruct e as [x|].
  - apply invoke_error in H.
    destruct H as [->|(p & msg & -> & -> & _ & -> & _ & ->)].
    + repeat split; try reflexivity. now left.
    + repeat split; try reflexivity. right. exists p.
      repeat split; try reflexivity. discriminate.
  - pose proof (invoke_success _ _ _ _ H) as (HJ & HS & HE & _).
    rewrite app_nil_r. repeat split; try assumption.
    destruct c as [p|n|k|n s|n a|n].
    + unfold invoke in H.
      destruct (Add p w) as [[m e'] w1] eqn:E. inversion H; subst.
      apply Add_success in E. destruct E as (_ & -> & _ & ->).
      right. exists p. repeat split; reflexivity.
    + pose proof (Get_world n w) as W. unfold invoke in H.
      destruct (Get n w) as [[p e'] w1]. inversion H; subst.
      cbn [fst snd] in W. subst w'. now left.
    + pose proof (GetByClient_world k w) as W. unfold invoke in H.
      destruct (GetByClient k w) as [[ps e'] w1]. inversion H; subst.
      cbn [fst snd] in W. subst w'. now left.
    + unfold invoke in H. pose proof (SetStatus_cases n s w) as C.
      destruct (next_outcome w); rewrite C in H; inversion H; subst; now left.
    + unfold invoke in H. pose proof (SetAddress_cases n a w) as C.
      destruct (next_outcome w); rewrite C in H; inversion H; subst; now left.
    + unfold invoke in H. pose proof (Delete_cases n w) as C.
      destruct (next_outcome w); rewrite C in H; inversion H; subst; now left.
Qed.

(** A [Get] that finds nothing: one SELECT sent, the error logged. *)
Lemma every_call_one_statement_witness :
  journal (snd (invoke (CallGet 3) (mkWorld [] 0 [] [] []))) = [SELECT [NumberEq 3]] /\
  stderr (snd (invoke (CallGet 3) (mkWorld [] 0 [] [] []))) = [ErrNoRows].
Proof.
  destruct (every_call_one_statement (CallGet 3) (mkWorld [] 0 [] [] [])
              (snd (invoke (CallGet 3) (mkWorld [] 0 [] [] [])))
              (RetParcel zero_Parcel) (Some ErrNoRows) eq_refl)
    as (HJ & _ & HE & _).
  split; [exact HJ|exact HE].
Defined.

(** X2 -- [Get] and [GetByClient] never change what is stored: after
    either, whatever the backend did with the query, the table and the key
    counter are what they were. *)
Theorem reads_change_nothing (w : World) :
  (forall number,
      table (snd (Get number w)) = table w /\ seq (snd (Get number w)) = seq w) /\
  (forall client,
      table (snd (GetByClient client w)) = table w /\
      seq (snd (GetByClient client w)) = seq w).
Proof.
  split.
  - intros n. rewrite Get_world.
    destruct (snd (fst (Get n w))); split; reflexivity.
  - intros c. rewrite GetByClient_world.
    destruct (snd (fst (GetByClient c w))); split; reflexivity.
Qed.

(** ** What [Get] returns *)

Lemma firstn_head {A} (k : nat) (l l' : list A) (a : A) :
  firstn k l = a :: l' -> hd_error l = Some a.
Proof. destruct k, l; simpl; intros H; inversion H; reflexivity. Qed.

Lemma Get_refused (n : Z) (w : World) (msg : string) :
  next_outcome w = StmtFails msg ->
  Get n w
  = ((zero_Parcel, Some (ErrDriver msg)), failed (ErrDriver msg) (stmt_Get n) w).
Proof.
  intros H. unfold Get, bind, QueryRow, Query. rewrite H. reflexivity.
Qed.

Lemma Get_cursor (n : Z) (w : World) (k : nat) (msg : string) :
  next_outcome w = CursorFails k msg ->
  Get n w
  = match firstn k (filter (has_number n) (table w)) with
    | [] => ((zero_Parcel, Some (ErrDriver msg)),
             failed (ErrDriver msg) (stmt_Get n) w)
    | r :: _ =>
        match Scan r zero_Parcel with
        | (p, Some e) => ((p, Some e), failed e (stmt_Get n) w)
        | (p, None) => ((p, None), receive (stmt_Get n) w)
        end
    end.
Proof.
  intros H. unfold Get, bind, QueryRow, Query. rewrite H.
  cbn [run Row_Scan pending broken]. rewrite select_number.
  destruct (firstn k (filter (has_number n) (table w))) as [|r l]; [reflexivity|].
  destruct (Scan r zero_Parcel) as [p [e|]]; reflexivity.
Qed.

Lemma Get_success_row (n : Z) (w w' : World) (p : Parcel) :
  Get n w = ((p, None), w') -> lookup n (table w) = Some (row_of_parcel p).
Proof.
  destruct (next_outcome w) eqn:Hout.
  - rewrite (Get_runs n w Hout). destruct (lookup n (table w)) as [r|];
      [|discriminate].
    destruct (Scan r zero_Parcel) as [q [e|]] eqn:E; intros H; inversion H; subst.
    apply Scan_ok_inv in E. now subst.
  - rewrite (Get_refused n w _ Hout). discriminate.
  - rewrite (Get_cursor n w _ _ Hout).
    destruct (firstn delivered (filter (has_number n) (table w))) as [|r l] eqn:F;
      [discriminate|].
    destruct (Scan r zero_Parcel) as [q [e|]] eqn:E; intros H; inversion H; subst.
    apply Scan_ok_inv in E. subst. unfold lookup. rewrite filter_head_find.
    exact (firstn_head _ _ _ _ F).
  - rewrite (Get_runs_anyway n w _ Hout). destruct (lookup n (table w)) as [r|];
      [|discriminate].
    destruct (Scan r zero_Parcel) as [q [e|]] eqn:E; intros H; inversion H; subst.
    apply Scan_ok_inv in E. now subst.
Qed.

Lemma unique_row (t : list Row) (r1 r2 : Row) :
  unique_numbers t -> In r1 t -> In r2 t -> r_number r1 = r_number r2 -> r1 = r2.
Proof.
  unfold unique_numbers. induction t as [|r t IH]; cbn [map]; intros Hu H1 H2 Hn.
  - destruct H1.
  - inversion Hu as [|x l Hnotin Hu']; subst.
    destruct H1 as [<-|H1], H2 as [<-|H2].
    + reflexivity.
    + exfalso. apply Hnotin. rewrite Hn. now apply in_map.
    + exfalso. apply Hnotin. rewrite <- Hn. now apply in_map.
    + now apply IH.
Qed.

(** X3 -- A [Get] that returns no error returns a stored parcel that carries
    the number asked for, whatever else the backend did; when numbers are
    unique in the table it is the only stored parcel of that number. *)
Theorem Get_sound (number : Z) (w w' : World) (p : Parcel) :
  Get number w = ((p, None), w') ->
  Number p = number /\
  In (row_of_parcel p) (table w) /\
  (unique_numbers (table w) ->
   forall q, In (row_of_parcel q) (table w) -> Number q = number -> q = p).
Proof.
  intros H. apply Get_success_row in H. apply lookup_in in H.
  destruct H as (Hin & Hn). cbn in Hn. split; [exact Hn|]. split; [exact Hin|].
  intros Hu q Hq Hqn. apply row_of_parcel_inj.
  apply (unique_row (table w)); auto. cbn. congruence.
Qed.

(** A [Get] through a cursor that breaks after the first row. *)
Lemma Get_sound_witness :
  In (row_of_parcel (mkParcel 1 10 "sent" "a" "t1"))
     [mkRow 1 (Some 10) (Some "sent") (Some "a") (Some "t1");
      mkRow 2 (Some 20) (Some "sent") (Some "b") (Some "t2")].
Proof.
  exact (proj1 (proj2 (Get_sound 1
           (mkWorld [mkRow 1 (Some 10) (Some "sent") (Some "a") (Some "t1");
                     mkRow 2 (Some 20) (Some "sent") (Some "b") (Some "t2")]
              2 [CursorFails 1 "interrupted"] [] [])
           _ (mkParcel 1 10 "sent" "a" "t1") eq_refl))).
Defined.




(** ** What [GetByClient] returns *)

Lemma scan_loop_spec (rows : list Row) (acc : list Parcel) :
  match scan_loop rows acc with
  | inr res => exists ps, res = acc ++ ps /\ rows = map row_of_parcel ps
  | inl (res, e) =>
      exists ps bad rest,
        res = acc ++ ps /\ rows = map row_of_parcel ps ++ bad :: rest /\
        snd (Scan bad zero_Parcel) = Some e
  end.
Proof.
  revert acc. induction rows as [|r rows IH]; intros acc; cbn [scan_loop].
  - exists []. now rewrite app_nil_r.
  - destruct (Scan r zero_Parcel) as [p [e|]] eqn:E.
    + exists [], r, rows. rewrite app_nil_r, E. auto.
    + apply Scan_ok_inv in E. subst r. specialize (IH (acc ++ [p])).
      destruct (scan_loop rows (acc ++ [p])) as [[res e]|res].
      * destruct IH as (ps & bad & rest & -> & -> & Hbad).
        exists (p :: ps), bad, rest. rewrite <- app_assoc. auto.
      * destruct IH as (ps & -> & ->). exists (p :: ps).
        rewrite <- app_assoc. auto.
Qed.

(** X5 -- Whatever the backend does and whatever the rows hold, the parcels
    [GetByClient] returns, with or without an error, are the first rows of
    the client, in storage order and as stored: none of another client and
    none that is not stored; when it returns no error they are all the rows
    of the client. *)
Theorem GetByClient_prefix (client : Z) (w w' : World) (ps : list Parcel)
        (e : option error) :
  GetByClient client w = ((ps, e), w') ->
  (exists rest,
      filter (has_client client) (table w) = map row_of_parcel ps ++ rest /\
      (e = None -> rest = [])) /\
  (forall p, In p ps -> Client p = client /\ In (row_of_parcel p) (table w)).
Proof.
  intros H.
  assert (Hpre : exists rest,
             filter (has_client client) (table w) = map row_of_parcel ps ++ rest /\
             (e = None -> rest = [])).
  { rewrite GetByClient_cases in H. cbv zeta in H.
    destruct (next_outcome w).
    - pose proof (scan_loop_spec (filter (has_client client) (table w)) []) as S.
      destruct (scan_loop _ _) as [[res x]|res]; inversion H; subst.
      + destruct S as (qs & bad & rest & -> & -> & _). cbn [app].
        exists (bad :: rest). split; [reflexivity|discriminate].
      + destruct S as (qs & -> & ->). cbn [app].
        exists []. now rewrite app_nil_r.
    - inversion H; subst. exists (filter (has_client client) (table w)).
      split; [reflexivity|discriminate].
    - pose proof (scan_loop_spec
                    (firstn delivered (filter (has_client client) (table w))) [])
        as S.
      rewrite <- (firstn_skipn delivered (filter (has_client client) (table w))).
      destruct (scan_loop _ _) as [[res x]|res]; inversion H; subst.
      + destruct S as (qs & bad & rest & -> & -> & _). cbn [app].
        rewrite <- app_assoc. eexists. split; [reflexivity|discriminate].
      + destruct S as (qs & -> & ->). cbn [app].
        eexists. split; [reflexivity|discriminate].
    - pose proof (scan_loop_spec (filter (has_client client) (table w)) []) as S.
      destruct (scan_loop _ _) as [[res x]|res]; inversion H; subst.
      + destruct S as (qs & bad & rest & -> & -> & _). cbn [app].
        exists (bad :: rest). split; [reflexivity|discriminate].
      + destruct S as (qs & -> & ->). cbn [app].
        exists []. now rewrite app_nil_r. }
  split; [exact Hpre|].
  destruct Hpre as (rest & Hrows & _). intros p Hp.
  assert (Hin : In (row_of_parcel p) (filter (has_client client) (table w))).
  { rewrite Hrows. apply in_or_app. left. now apply in_map. }
  apply filter_In in Hin. destruct Hin as (Hin & Hc).
  apply has_client_row_of_parcel in Hc. auto.
Qed.

(** A cursor that breaks after one of two rows of the client. *)
Lemma GetByClient_prefix_witness :
  exists rest,
    filter (has_client 42)
      [mkRow 1 (Some 42) (Some "sent") (Some "a") (Some "t1");
       mkRow 2 (Some 7) (Some "sent") (Some "b") (Some "t2");
       mkRow 3 (Some 42) (Some "sent") (Some "c") (Some "t3")]
    = map row_of_parcel [mkParcel 1 42 "sent" "a" "t1"] ++ rest /\
    (Some (ErrDriver "interrupted") = None -> rest = []).
Proof.
  exact (proj1 (GetByClient_prefix 42
           (mkWorld [mkRow 1 (Some 42) (Some "sent") (Some "a") (Some "t1");
                     mkRow 2 (Some 7) (Some "sent") (Some "b") (Some "t2");
                     mkRow 3 (Some 42) (Some "sent") (Some "c") (Some "t3")]
              3 [CursorFails 1 "interrupted"] [] [])
           _ [mkParcel 1 42 "sent" "a" "t1"] (Some (ErrDriver "interrupted"))
           eq_refl)).
Defined.

(** ** What [Add] returns and leaves *)

(** X6 -- [Add] returns [0] exactly when it returns an error; the table is
    then as it was, unless the INSERT has run and only its result failed to
    tell the key: then the new row is stored, under a number larger than
    every number stored before.  When [Add] succeeds the number is at least
    1, larger than every number stored before, and the table has gained one
    row, with that number and the four fields of the argument.  The
    [Number] field of the argument plays no part. *)
Theorem Add_result (p : Parcel) (w w' : World) (n : Z) (e : option error) :
  Add p w = ((n, e), w') ->
  match e with
  | Some x =>
      n = 0 /\
      (table w' = table w \/
       exists msg m,
         next_outcome w = LastInsertIdFails msg /\ x = ErrDriver msg /\
         1 <= m <= max_int64 /\
         (forall r, In r (table w) -> r_number r < m) /\
         table w'
         = table w
           ++ [mkRow m (Some (Client p)) (Some (Status p)) (Some (Address p))
                 (Some (CreatedAt p))])
  | None =>
      1 <= n <= max_int64 /\
      (forall r, In r (table w) -> r_number r < n) /\
      table w'
      = table w
        ++ [mkRow n (Some (Client p)) (Some (Status p)) (Some (Address p))
              (Some (CreatedAt p))]
  end /\
  forall k, Add (with_Number k p) w = Add p w.
Proof.
  intros H. split; [|reflexivity].
  destruct e as [x|].
  - apply Add_error in H.
    destruct H as (-> & _ & [->|(msg & Ho & -> & Hr & ->)]).
    + split; [reflexivity|]. now left.
    + split; [reflexivity|]. right.
      exists msg, (next_number (table w) (seq w)).
      split; [exact Ho|]. split; [reflexivity|]. split.
      * pose proof (next_number_positive (table w) (seq w)). lia.
      * split; [|reflexivity]. intros r Hin. now apply next_number_fresh.
  - apply Add_success in H. destruct H as (_ & Hn & Hr & ->).
    split; [exact Hr|]. split; [|reflexivity].
    intros r Hin. subst n. now apply next_number_fresh.
Qed.

(** [Add] on a store whose largest number is 5. *)
Lemma Add_result_witness :
  1 <= 6 <= max_int64 /\
  (forall r, In r [mkRow 5 (Some 77) (Some "sent") (Some "x") (Some "t")] ->
             r_number r < 6) /\
  table (snd (Add (mkParcel 0 1000 "registered" "test" "t0")
                (mkWorld [mkRow 5 (Some 77) (Some "sent") (Some "x") (Some "t")]
                   5 [] [] [])))
  = [mkRow 5 (Some 77) (Some "sent") (Some "x") (Some "t")]
    ++ [mkRow 6 (Some 1000) (Some "registered") (Some "test") (Some "t0")].
Proof.
  exact (proj1 (Add_result (mkParcel 0 1000 "registered" "test" "t0")
                  (mkWorld [mkRow 5 (Some 77) (Some "sent") (Some "x") (Some "t")]
                     5 [] [] [])
                  _ 6 None eq_refl)).
Defined.

Lemma lookup_app_found (n : Z) (t t' : list Row) (r : Row) :
  lookup n t = Some r -> lookup n (t ++ t') = Some r.
Proof.
  unfold lookup. induction t as [|r0 t IH]; simpl; [discriminate|].
  destruct (has_number n r0); auto.
Qed.

Lemma Add_table (p : Parcel) (w w' : World) (n : Z) (e : option error) :
  Add p w = ((n, e), w') ->
  table w' = table w \/
  exists m, table w' = table w ++ [row_of_parcel (with_Number m p)].
Proof.
  intros H. destruct e as [x|].
  - apply Add_error in H. destruct H as (_ & _ & [->|(msg & _ & _ & _ & ->)]).
    + now left.
    + right. eexists. reflexivity.
  - apply Add_adds in H. destruct H as (HT & _). right. eauto.
Qed.

(** X7 -- [Add], successful or not, leaves every parcel that was stored
    readable as before: [Get] of a number that had a row returns after the
    [Add] what it returned before it, and the rows of every other client are
    the same rows. *)
Theorem Add_frame (p : Parcel) (w w' : World) (n : Z) (e : option error) :
  Add p w = ((n, e), w') ->
  (forall m r, lookup m (table w) = Some r -> lookup m (table w') = Some r) /\
  (forall m,
      (exists r, In r (table w) /\ r_number r = m) ->
      next_outcome w = Ok -> next_outcome w' = Ok ->
      fst (Get m w') = fst (Get m w)) /\
  (forall c, c <> Client p ->
             filter (has_client c) (table w') = filter (has_client c) (table w)).
Proof.
  intros H. apply Add_table in H.
  assert (HL : forall m r, lookup m (table w) = Some r ->
                           lookup m (table w') = Some r).
  { intros m r L. destruct H as [->|(k & ->)]; [exact L|].
    now apply lookup_app_found. }
  split; [exact HL|]. split.
  - intros m (r & Hin & Hm) Hok Hok'.
    rewrite (Get_runs m w Hok), (Get_runs m w' Hok').
    destruct (lookup m (table w)) as [r0|] eqn:L.
    + rewrite (HL m r0 L). destruct (Scan r0 zero_Parcel) as [q [x|]]; reflexivity.
    + exfalso. rewrite lookup_none in L. exact (L r Hin Hm).
  - intros c Hc. destruct H as [->|(k & ->)]; [reflexivity|].
    rewrite filter_app. cbn [filter].
    replace (has_client c (row_of_parcel (with_Number k p))) with false.
    + apply app_nil_r.
    + symmetry. destruct (has_client c (row_of_parcel (with_Number k p))) eqn:E;
        [|reflexivity].
      apply has_client_row_of_parcel in E. cbn in E. congruence.
Qed.

(** Parcel 5 reads the same before and after an [Add]. *)
Lemma Add_frame_witness :
  fst (Get 5 (snd (Add (mkParcel 0 1000 "registered" "test" "t0")
                     (mkWorld [mkRow 5 (Some 77) (Some "sent") (Some "x") (Some "t")]
                        5 [] [] []))))
  = fst (Get 5 (mkWorld [mkRow 5 (Some 77) (Some "sent") (Some "x") (Some "t")]
                  5 [] [] [])).
Proof.
  apply (proj1 (proj2 (Add_frame (mkParcel 0 1000 "registered" "test" "t0")
                         (mkWorld [mkRow 5 (Some 77) (Some "sent") (Some "x") (Some "t")]
                            5 [] [] [])
                         _ 6 None eq_refl)) 5).
  - eexists. split; [left; reflexivity|reflexivity].
  - reflexivity.
  - reflexivity.
Defined.



(** ** Invariants of the table *)

Lemma NoDup_snoc {A} (l : list A) (a : A) :
  NoDup l -> ~ In a l -> NoDup (l ++ [a]).
Proof.
  induction 1 as [|x l Hx Hl IH]; cbn [app]; intros Ha.
  - constructor; [intros []|constructor].
  - constructor.
    + intros Hin. apply in_app_or in Hin. destruct Hin as [Hin|[->|[]]].
      * now apply Hx.
      * apply Ha. now left.
    + apply IH. intros Hin. apply Ha. now right.
Qed.

Lemma NoDup_map_filter {A B} (g : A -> B) (f : A -> bool) (l : list A) :
  NoDup (map g l) -> NoDup (map g (filter f l)).
Proof.
  induction l as [|a l IH]; cbn [map filter]; intros H; [exact H|].
  inversion H as [|x y Hx Hy]; subst.
  destruct (f a); cbn [map]; [|now apply IH].
  constructor; [|now apply IH].
  intros Hin. apply Hx. apply in_map_iff in Hin. destruct Hin as (b & Hb & Hin).
  apply filter_In in Hin. rewrite <- Hb. apply in_map. tauto.
Qed.

Lemma invoke_unique (c : call) (w w' : World) (r : reply) (e : option error) :
  invoke c w = ((r, e), w') ->
  unique_numbers (table w) -> unique_numbers (table w').
Proof.
  unfold unique_numbers. intros H Hu. apply invoke_table_cases in H.
  destruct H as [HT|[(p & n & _ & HT & Hf & _)
                    |[(n & s & _ & HT)|[(n & a & _ & HT)|(n & _ & HT)]]]];
    rewrite HT.
  - exact Hu.
  - rewrite map_app. cbn [map row_of_parcel r_number with_Number Number].
    apply NoDup_snoc; [exact Hu|].
    intros Hin. apply in_map_iff in Hin. destruct Hin as (r0 & Hn & Hin).
    exact (Hf r0 Hin Hn).
  - rewrite map_map. erewrite map_ext; [exact Hu|].
    intros r0. cbv beta. destruct (has_number n r0);
      [apply assign_number|reflexivity].
  - rewrite map_map. erewrite map_ext; [exact Hu|].
    intros r0. cbv beta. destruct (has_number n r0 && is_registered r0);
      [apply assign_number|reflexivity].
  - now apply NoDup_map_filter.
Qed.

(** X9 -- Through any run of calls of the six methods, whatever the backend
    does with each, a table in which no two rows carry the same number stays
    such a table. *)
Theorem numbers_stay_unique (cs : list call) (w : World) :
  unique_numbers (table w) ->
  unique_numbers (table (snd (invoke_all cs w))).
Proof.
  revert w. induction cs as [|c cs IH]; intros w Hu; cbn [invoke_all].
  - exact Hu.
  - destruct (invoke c w) as [[r e] w1] eqn:E.
    apply invoke_unique in E; [|exact Hu]. specialize (IH w1 E).
    destruct (invoke_all cs w1) as [rs w2]. exact IH.
Qed.

(** Two adds, a status change and a delete on a store of one parcel. *)
Lemma numbers_stay_unique_witness :
  unique_numbers
    [mkRow 5 (Some 77) (Some "delivered") (Some "x") (Some "t");
     mkRow 7 (Some 2) (Some "registered") (Some "b") (Some "t2")].
Proof.
  refine (numbers_stay_unique
            [CallAdd (mkParcel 0 1 "registered" "a" "t1");
             CallAdd (mkParcel 0 2 "registered" "b" "t2");
             CallSetStatus 5 "delivered"; CallDelete 6]
            (mkWorld [mkRow 5 (Some 77) (Some "sent") (Some "x") (Some "t")]
               5 [] [] []) _).
  constructor; [intros []|constructor].
Defined.

Lemma Get_scan_error (n : Z) (w w' : World) (p : Parcel) (k : nat) :
  Get n w = ((p, Some (ErrScan k)), w') ->
  exists r, In r (table w) /\ snd (Scan r zero_Parcel) = Some (ErrScan k).
Proof.
  destruct (next_outcome w) eqn:Hout.
  - rewrite (Get_runs n w Hout). destruct (lookup n (table w)) as [r|] eqn:L;
      [|discriminate].
    destruct (Scan r zero_Parcel) as [q [x|]] eqn:E; intros H; inversion H; subst.
    apply lookup_in in L. exists r. rewrite E. tauto.
  - rewrite (Get_refused n w _ Hout). discriminate.
  - rewrite (Get_cursor n w _ _ Hout).
    destruct (firstn delivered (filter (has_number n) (table w))) as [|r l] eqn:F;
      [discriminate|].
    destruct (Scan r zero_Parcel) as [q [x|]] eqn:E; intros H; inversion H; subst.
    apply firstn_head in F. rewrite <- filter_head_find in F.
    apply (lookup_in n) in F. exists r. rewrite E. tauto.
  - rewrite (Get_runs_anyway n w _ Hout).
    destruct (lookup n (table w)) as [r|] eqn:L; [|discriminate].
    destruct (Scan r zero_Parcel) as [q [x|]] eqn:E; intros H; inversion H; subst.
    apply lookup_in in L. exists r. rewrite E. tauto.
Qed.

Lemma firstn_incl {A} (k : nat) (l : list A) (a : A) :
  In a (firstn k l) -> In a l.
Proof.
  revert l. induction k as [|k IH]; intros [|x l]; cbn [firstn In]; try tauto.
  intros [H|H]; [now left|right; now apply IH].
Qed.

Lemma GetByClient_scan_error (c : Z) (w w' : World) (ps : list Parcel) (k : nat) :
  GetByClient c w = ((ps, Some (ErrScan k)), w') ->
  exists r, In r (table w) /\ snd (Scan r zero_Parcel) = Some (ErrScan k).
Proof.
  rewrite GetByClient_cases. cbv zeta. destruct (next_outcome w).
  - pose proof (scan_loop_spec (filter (has_client c) (table w)) []) as S.
    destruct (scan_loop _ _) as [[res x]|res]; intros H; inversion H; subst.
    destruct S as (qs & bad & rest & _ & Hrows & Hbad).
    exists bad. split; [|exact Hbad].
    assert (Hin : In bad (filter (has_client c) (table w)))
      by (rewrite Hrows; apply in_or_app; right; now left).
    apply filter_In in Hin. tauto.
  - discriminate.
  - pose proof (scan_loop_spec
                  (firstn delivered (filter (has_client c) (table w))) []) as S.
    destruct (scan_loop _ _) as [[res x]|res]; intros H; inversion H; subst.
    destruct S as (qs & bad & rest & _ & Hrows & Hbad).
    exists bad. split; [|exact Hbad].
    assert (Hin : In bad (firstn delivered (filter (has_client c) (table w))))
      by (rewrite Hrows; apply in_or_app; right; now left).
    apply firstn_incl in Hin. apply filter_In in Hin. tauto.
  - pose proof (scan_loop_spec (filter (has_client c) (table w)) []) as S.
    destruct (scan_loop _ _) as [[res x]|res]; intros H; inversion H; subst.
    destruct S as (qs & bad & rest & _ & Hrows & Hbad).
    exists bad. split; [|exact Hbad].
    assert (Hin : In bad (filter (has_client c) (table w)))
      by (rewrite Hrows; apply in_or_app; right; now left).
    apply filter_In in Hin. tauto.
Qed.

Lemma invoke_scan_error (c : call) (w w' : World) (r : reply) (k : nat) :
  invoke c w = ((r, Some (ErrScan k)), w') ->
  exists row, In row (table w) /\ snd (Scan row zero_Parcel) = Some (ErrScan k).
Proof.
  destruct c as [p|n|c|n s|n a|n]; unfold invoke.
  - destruct (Add p w) as [[m [x|]] w1] eqn:E; intros H; inversion H; subst.
    apply Add_error in E. destruct E as (_ & (msg & Hm) & _). discriminate.
  - destruct (Get n w) as [[p [x|]] w1] eqn:E; intros H; inversion H; subst.
    exact (Get_scan_error _ _ _ _ _ E).
  - destruct (GetByClient c w) as [[ps [x|]] w1] eqn:E; intros H; inversion H; subst.
    exact (GetByClient_scan_error _ _ _ _ _ E).
  - destruct (SetStatus n s w) as [[x|] w1] eqn:E; intros H; inversion H; subst.
    apply SetStatus_error in E. destruct E as (_ & msg & Hm). discriminate.
  - destruct (SetAddress n a w) as [[x|] w1] eqn:E; intros H; inversion H; subst.
    apply SetAddress_error in E. destruct E as (_ & msg & Hm). discriminate.
  - destruct (Delete n w) as [[x|] w1] eqn:E; intros H; inversion H; subst.
    apply Delete_error in E. destruct E as (_ & msg & Hm). discriminate.
Qed.

Lemma no_scan_error_on_complete (cs : list call) :
  forall w, Forall complete (table w) ->
            Forall (fun re => forall k, snd re <> Some (ErrScan k))
                   (fst (invoke_all cs w)).
Proof.
  induction cs as [|c cs IH]; intros w Hc; cbn [invoke_all].
  - constructor.
  - destruct (invoke c w) as [[r0 e0] w1] eqn:E.
    pose proof (invoke_complete _ _ _ _ _ E Hc) as Hc1.
    specialize (IH w1 Hc1).
    destruct (invoke_all cs w1) as [rs w2]. cbn [fst] in *.
    constructor; [|exact IH].
    cbn [snd]. intros k Hk. subst e0.
    apply invoke_scan_error in E. destruct E as (row & Hin & Hbad).
    rewrite Forall_forall in Hc. destruct (Hc row Hin) as [q ->].
    rewrite Scan_row_of_parcel in Hbad. discriminate.
Qed.

(** X10 -- The store writes only rows that scan: in a store that started
    empty, no call of any run of the six methods returns a scan error,
    whatever the backend does, a row stored by an [Add] that then failed to
    read its key included. *)
Theorem no_scan_error_from_empty_start (cs : list call) (w : World) :
  table w = [] ->
  Forall (fun re => forall k, snd re <> Some (ErrScan k)) (fst (invoke_all cs w)).
Proof.
  intros Hempty. apply no_scan_error_on_complete. rewrite Hempty. constructor.
Qed.

(** A run with an [Add] that stores its row and fails to read the key,
    then reads it back. *)
Lemma no_scan_error_from_empty_start_witness :
  Forall (fun re => forall k, snd re <> Some (ErrScan k))
    (fst (invoke_all
            [CallAdd (mkParcel 0 42 "registered" "a" "t1"); CallGet 1;
             CallGetByClient 42]
            (mkWorld [] 0 [LastInsertIdFails "LastInsertId is not supported"]
               [] []))).
Proof.
  exact (no_scan_error_from_empty_start
           [CallAdd (mkParcel 0 42 "registered" "a" "t1"); CallGet 1;
            CallGetByClient 42]
           (mkWorld [] 0 [LastInsertIdFails "LastInsertId is not supported"] [] [])
           eq_refl).
Defined.

(** ** How the mutations compose *)

Lemma SetStatus_success (n : Z) (s : string) (w w1 : World) :
  SetStatus n s w = (None, w1) ->
  (forall msg, next_outcome w <> StmtFails msg) /\
  table w1 = map (fun r => if has_number n r then assign (SetStatusTo s) r else r)
               (table w).
Proof.
  pose proof (SetStatus_cases n s w) as C.
  destruct (next_outcome w); rewrite C; intros H; inversion H; subst;
    (split; [discriminate|]; cbn [table store]; apply update_number).
Qed.

(** Where one [SetStatus] has run, any other would have run as well. *)
Lemma SetStatus_ran (n : Z) (s s' : string) (w w1 : World) :
  SetStatus n s w = (None, w1) ->
  table (snd (SetStatus n s' w))
  = map (fun r => if has_number n r then assign (SetStatusTo s') r else r)
      (table w).
Proof.
  pose proof (SetStatus_cases n s w) as C.
  pose proof (SetStatus_cases n s' w) as C'.
  destruct (next_outcome w); rewrite C; intros H; inversion H; subst;
    (rewrite C'; cbn [snd table store]; apply update_number).
Qed.

Lemma SetAddress_success (n : Z) (a : string) (w w1 : World) :
  SetAddress n a w = (None, w1) ->
  (forall msg, next_outcome w <> StmtFails msg) /\
  table w1 = map (fun r => if has_number n r && is_registered r
                           then assign (SetAddressTo a) r else r)
               (table w).
Proof.
  pose proof (SetAddress_cases n a w) as C.
  destruct (next_outcome w); rewrite C; intros H; inversion H; subst;
    (split; [discriminate|]; cbn [table store]; apply update_guard).
Qed.

Lemma Delete_success (n : Z) (w w1 : World) :
  Delete n w = (None, w1) ->
  (forall msg, next_outcome w <> StmtFails msg) /\
  table w1 = filter (fun r => negb (has_number n r && is_registered r)) (table w).
Proof.
  pose proof (Delete_cases n w) as C.
  destruct (next_outcome w); rewrite C; intros H; inversion H; subst;
    (split; [discriminate|]; cbn [table store]; apply delete_guard).
Qed.

(** The table after a guarded call, whatever the outcome. *)
Lemma SetAddress_table (n : Z) (a : string) (w : World) :
  table (snd (SetAddress n a w)) = table w \/
  table (snd (SetAddress n a w))
  = map (fun r => if has_number n r && is_registered r
                  then assign (SetAddressTo a) r else r) (table w).
Proof.
  pose proof (SetAddress_cases n a w) as C.
  destruct (next_outcome w); rewrite C; [right|left|left|right]; try reflexivity;
    (cbn [snd table store]; apply update_guard).
Qed.

Lemma Delete_table (n : Z) (w : World) :
  table (snd (Delete n w)) = table w \/
  table (snd (Delete n w))
  = filter (fun r => negb (has_number n r && is_registered r)) (table w).
Proof.
  pose proof (Delete_cases n w) as C.
  destruct (next_outcome w); rewrite C; [right|left|left|right]; try reflexivity;
    (cbn [snd table store]; apply delete_guard).
Qed.

Lemma SetStatus_table (n : Z) (s : string) (w : World) :
  table (snd (SetStatus n s w)) = table w \/
  table (snd (SetStatus n s w))
  = map (fun r => if has_number n r then assign (SetStatusTo s) r else r) (table w).
Proof.
  pose proof (SetStatus_cases n s w) as C.
  destruct (next_outcome w); rewrite C; [right|left|left|right]; try reflexivity;
    (cbn [snd table store]; apply update_number).
Qed.

Lemma guard_after_status (n : Z) (s : string) (t : list Row) (r : Row) :
  In r (map (fun r => if has_number n r then assign (SetStatusTo s) r else r) t) ->
  has_number n r && is_registered r = has_number n r && String.eqb s ParcelStatusRegistered.
Proof.
  intros Hin. apply in_map_iff in Hin. destruct Hin as (r0 & <- & _).
  destruct (has_number n r0) eqn:E.
  - unfold has_number in *. rewrite assign_number, E. reflexivity.
  - rewrite E. reflexivity.
Qed.

(** X11 -- The gate follows the status of the moment.  Once [SetStatus] has
    set a status other than [registered] for a number, [SetAddress] and
    [Delete] for that number leave the table as it is, whatever the backend
    does with them; once [SetStatus] has set [registered], whatever the
    status was before, a [Delete] that the backend runs leaves no row of
    that number. *)
Theorem gate_follows_status (number : Z) (status : string) (w w1 : World) :
  SetStatus number status w = (None, w1) ->
  (status <> ParcelStatusRegistered ->
   (forall address, table (snd (SetAddress number address w1)) = table w1) /\
   table (snd (Delete number w1)) = table w1) /\
  (status = ParcelStatusRegistered ->
   next_outcome w1 = Ok ->
   forall r, In r (table (snd (Delete number w1))) -> r_number r <> number).
Proof.
  intros H. apply SetStatus_success in H. destruct H as (_ & HT).
  assert (G : forall r, In r (table w1) ->
                has_number number r && is_registered r
                = has_number number r && String.eqb status ParcelStatusRegistered).
  { intros r Hin. rewrite HT in Hin. exact (guard_after_status _ _ _ _ Hin). }
  split.
  - intros Hs. apply String.eqb_neq in Hs.
    assert (G' : forall r, In r (table w1) ->
                   has_number number r && is_registered r = false)
      by (intros r Hin; rewrite (G r Hin), Hs; apply andb_false_r).
    split.
    + intros address.
      destruct (SetAddress_table number address w1) as [E|E]; rewrite E;
        [reflexivity|].
      apply map_id_when. intros r Hin. now rewrite (G' r Hin).
    + destruct (Delete_table number w1) as [E|E]; rewrite E; [reflexivity|].
      apply filter_all. intros r Hin. now rewrite (G' r Hin).
  - intros Hs Hok r Hin Hn.
    destruct (Delete_runs number w1 Hok) as (w2 & HD & _ & _ & HT2).
    rewrite HD in Hin. cbn [snd] in Hin. rewrite HT2 in Hin.
    apply filter_In in Hin. destruct Hin as (Hin & Hkeep).
    rewrite (G r Hin) in Hkeep. apply has_number_true in Hn.
    apply String.eqb_eq in Hs. now rewrite Hn, Hs in Hkeep.
Qed.

(** A parcel marked as sent keeps its row through a [Delete]; a delivered
    parcel set back to [registered] loses it. *)
Lemma gate_follows_status_witness :
  table (snd (Delete 5
                (snd (SetStatus 5 "sent"
                        (mkWorld [mkRow 5 (Some 77) (Some "registered")
                                    (Some "x") (Some "t")] 5 [] [] [])))))
  = [mkRow 5 (Some 77) (Some "sent") (Some "x") (Some "t")] /\
  Forall (fun r => r_number r <> 5)
    (table (snd (Delete 5
                   (snd (SetStatus 5 "registered"
                           (mkWorld [mkRow 5 (Some 77) (Some "delivered")
                                       (Some "x") (Some "t")] 5 [] [] [])))))).
Proof.
  split.
  - refine (proj2 (proj1 (gate_follows_status 5 "sent"
                            (mkWorld [mkRow 5 (Some 77) (Some "registered")
                                        (Some "x") (Some "t")] 5 [] [] [])
                            _ eq_refl) _)).
    discriminate.
  - apply Forall_forall.
    exact (proj2 (gate_follows_status 5 "registered"
                    (mkWorld [mkRow 5 (Some 77) (Some "delivered")
                                (Some "x") (Some "t")] 5 [] [] [])
                    _ eq_refl) eq_refl eq_refl).
Defined.

Lemma map_twice {A} (f g : A -> A) (l : list A) :
  (forall a, g (f a) = g a) -> map g (map f l) = map g l.
Proof. intros H. rewrite map_map. apply map_ext. exact H. Qed.

Lemma filter_twice {A} (f : A -> bool) (l : list A) :
  filter f (filter f l) = filter f l.
Proof.
  apply filter_all. intros a Hin. apply filter_In in Hin. tauto.
Qed.

(** X12 -- Repeating a mutation changes nothing more: after a [Delete], a
    [SetStatus] or a [SetAddress] that returned no error, the same call
    again leaves the table as it is, whatever the backend does with it; and
    of two [SetStatus] calls in a row that return no error the second
    decides: the table is the one the second alone would have left. *)
Theorem repeating_changes_nothing (number : Z) (w w1 : World) :
  (Delete number w = (None, w1) ->
   table (snd (Delete number w1)) = table w1) /\
  (forall status,
      SetStatus number status w = (None, w1) ->
      table (snd (SetStatus number status w1)) = table w1) /\
  (forall address,
      SetAddress number address w = (None, w1) ->
      table (snd (SetAddress number address w1)) = table w1) /\
  (forall status status' w2,
      SetStatus number status w = (None, w1) ->
      SetStatus number status' w1 = (None, w2) ->
      table w2 = table (snd (SetStatus number status' w))).
Proof.
  split; [|split; [|split]].
  - intros H. apply Delete_success in H. destruct H as (_ & HT).
    destruct (Delete_table number w1) as [E|E]; rewrite E; [reflexivity|].
    rewrite HT. apply filter_twice.
  - intros status H. apply SetStatus_success in H. destruct H as (_ & HT).
    destruct (SetStatus_table number status w1) as [E|E]; rewrite E; [reflexivity|].
    rewrite HT. apply map_twice. intros r.
    destruct (has_number number r) eqn:E1.
    + unfold has_number in *. rewrite assign_number, E1. reflexivity.
    + now rewrite E1.
  - intros address H. apply SetAddress_success in H. destruct H as (_ & HT).
    destruct (SetAddress_table number address w1) as [E|E]; rewrite E;
      [reflexivity|].
    rewrite HT. apply map_twice. intros r.
    destruct (has_number number r && is_registered r) eqn:E1.
    + assert (E2 : has_number number (assign (SetAddressTo address) r)
                   && is_registered (assign (SetAddressTo address) r) = true)
        by exact E1.
      rewrite E2. reflexivity.
    + now rewrite E1.
  - intros status status' w2 H1 H2.
    rewrite (SetStatus_ran number status status' w w1 H1).
    apply SetStatus_success in H1. destruct H1 as (_ & HT1).
    apply SetStatus_success in H2. destruct H2 as (_ & HT2).
    rewrite HT2, HT1.
    apply map_twice. intros r.
    destruct (has_number number r) eqn:E1.
    + unfold has_number in *. rewrite assign_number, E1. reflexivity.
    + now rewrite E1.
Qed.

(** Two status changes in a row on a store of one parcel. *)
Lemma repeating_changes_nothing_witness :
  table (snd (SetStatus 5 "delivered"
                (snd (SetStatus 5 "sent"
                        (mkWorld [mkRow 5 (Some 77) (Some "registered")
                                    (Some "x") (Some "t")] 5 [] [] [])))))
  = table (snd (SetStatus 5 "delivered"
                  (mkWorld [mkRow 5 (Some 77) (Some "registered")
                              (Some "x") (Some "t")] 5 [] [] []))).
Proof.
  exact (proj2 (proj2 (proj2 (repeating_changes_nothing 5
           (mkWorld [mkRow 5 (Some 77) (Some "registered") (Some "x") (Some "t")]
              5 [] [] [])
           _))) "sent" "delivered" _ eq_refl eq_refl).
Defined.

Lemma filter_swap {A} (f g : A -> bool) (l : list A) :
  filter f (filter g l) = filter g (filter f l).
Proof.
  induction l as [|a l IH]; simpl; [reflexivity|].
  destruct (f a) eqn:Ef, (g a) eqn:Eg; simpl; rewrite ?Ef, ?Eg, IH; reflexivity.
Qed.

Lemma filter_map_swap {A} (g : A -> bool) (f : A -> A) (l : list A) :
  (forall a, g (f a) = g a) -> filter g (map f l) = map f (filter g l).
Proof.
  intros H. induction l as [|a l IH]; simpl; [reflexivity|].
  rewrite H. destruct (g a); simpl; now rewrite IH.
Qed.

(** The effect of a mutation for number [n]: rows of [n] rewritten in place
    with their number, or rows of [n] dropped. *)
Lemma effect_shape (c : call) (n : Z) :
  targets c = Some n ->
  (exists f,
      (forall r, r_number (f r) = r_number r) /\
      (forall r, r_number r <> n -> f r = r) /\
      forall t, effect c t = map f t) \/
  (exists g,
      (forall r, r_number r <> n -> g r = true) /\
      forall t, effect c t = filter g t).
Proof.
  destruct c as [p|m|k|m s|m a|m]; cbn [targets]; intros H; inversion H; subst.
  - left. eexists. split; [|split; [|intros t; apply update_number]].
    + intros r. cbv beta. destruct (has_number n r); [apply assign_number|reflexivity].
    + intros r Hn. apply has_number_false in Hn. cbv beta. now rewrite Hn.
  - left. eexists. split; [|split; [|intros t; apply update_guard]].
    + intros r. cbv beta. destruct (has_number n r && is_registered r);
        [apply assign_number|reflexivity].
    + intros r Hn. apply has_number_false in Hn. cbv beta. now rewrite Hn.
  - right. eexists. split; [|intros t; apply delete_guard].
    intros r Hn. apply has_number_false in Hn. cbv beta. now rewrite Hn.
Qed.

Lemma effects_commute (c1 c2 : call) (n m : Z) (t : list Row) :
  targets c1 = Some n -> targets c2 = Some m -> n <> m ->
  effect c2 (effect c1 t) = effect c1 (effect c2 t).
Proof.
  intros H1 H2 Hnm.
  destruct (effect_shape c1 n H1) as [(f & Pf & Of & E1)|(g & Og & E1)];
    destruct (effect_shape c2 m H2) as [(f' & Pf' & Of' & E2)|(g' & Og' & E2)];
    rewrite !E1, !E2, ?E1.
  - rewrite !map_map. apply map_ext. intros r.
    destruct (Z.eq_dec (r_number r) n) as [En|En].
    + rewrite (Of' r) by congruence. apply Of'. rewrite Pf. congruence.
    + rewrite (Of r En). symmetry. apply Of. now rewrite Pf'.
  - apply filter_map_swap. intros r.
    destruct (Z.eq_dec (r_number r) n) as [En|En].
    + rewrite !Og'; [reflexivity|congruence|rewrite Pf; congruence].
    + now rewrite (Of r En).
  - symmetry. apply filter_map_swap. intros r.
    destruct (Z.eq_dec (r_number r) m) as [Em|Em].
    + rewrite !Og; [reflexivity|congruence|rewrite Pf'; congruence].
    + now rewrite (Of' r Em).
  - apply filter_swap.
Qed.

Lemma mutation_runs (c : call) (n : Z) (w : World) :
  targets c = Some n -> next_outcome w = Ok ->
  invoke c w
  = ((RetNothing, None), store (effect c (table w)) (seq w) (receive (stmt_of c) w)).
Proof.
  intros Ht Hok.
  destruct c as [p|m|k|m s|m a|m]; cbn [targets] in Ht; try discriminate;
    unfold invoke, effect; cbn [stmt_of].
  - pose proof (SetStatus_cases m s w) as C. rewrite Hok in C. now rewrite C.
  - pose proof (SetAddress_cases m a w) as C. rewrite Hok in C. now rewrite C.
  - pose proof (Delete_cases m w) as C. rewrite Hok in C. now rewrite C.
Qed.

(** X13 -- Mutations of different parcels do not interfere: two calls among
    [SetStatus], [SetAddress] and [Delete] for two different numbers, both
    run by the backend, leave the same table in either order. *)
Theorem mutations_of_different_numbers_commute (c1 c2 : call) (n m : Z)
        (w : World) :
  targets c1 = Some n -> targets c2 = Some m -> n <> m ->
  quiet 2 w = true ->
  table (snd (invoke_all [c1; c2] w)) = table (snd (invoke_all [c2; c1] w)).
Proof.
  intros H1 H2 Hnm Hq. apply quiet_step in Hq. destruct Hq as (Hok & Hq).
  assert (Hok1 : forall w', sched w' = tl (sched w) -> next_outcome w' = Ok).
  { intros w' Hs. specialize (Hq w' Hs). now apply quiet_step in Hq. }
  cbn [invoke_all].
  rewrite (mutation_runs c1 n w H1 Hok), (mutation_runs c2 m w H2 Hok).
  rewrite (mutation_runs c2 m _ H2
             (Hok1 (store (effect c1 (table w)) (seq w) (receive (stmt_of c1) w))
                eq_refl)).
  rewrite (mutation_runs c1 n _ H1
             (Hok1 (store (effect c2 (table w)) (seq w) (receive (stmt_of c2) w))
                eq_refl)).
  cbn [snd table store receive]. now apply (effects_commute c1 c2 n m).
Qed.

(** A [Delete] of one parcel and a [SetAddress] of another. *)
Lemma mutations_of_different_numbers_commute_witness :
  table (snd (invoke_all [CallDelete 1; CallSetAddress 2 "new"]
                (mkWorld [mkRow 1 (Some 10) (Some "registered") (Some "a") (Some "t1");
                          mkRow 2 (Some 20) (Some "registered") (Some "b") (Some "t2")]
                   2 [] [] [])))
  = table (snd (invoke_all [CallSetAddress 2 "new"; CallDelete 1]
                  (mkWorld [mkRow 1 (Some 10) (Some "registered") (Some "a") (Some "t1");
                            mkRow 2 (Some 20) (Some "registered") (Some "b") (Some "t2")]
                     2 [] [] []))).
Proof.
  apply (mutations_of_different_numbers_commute
           (CallDelete 1) (CallSetAddress 2 "new") 1 2); try reflexivity.
  discriminate.
Defined.

(** * The tests *)

Import Tests.

(** ** Steps of a test on a backend that runs its statements *)

Lemma Add_step (p : Parcel) (w : World) :
  next_outcome w = Ok ->
  next_number (table w) (seq w) <= max_int64 ->
  exists w1,
    Add p w = ((next_number (table w) (seq w), None), w1) /\
    table w1
    = table w ++ [row_of_parcel (with_Number (next_number (table w) (seq w)) p)] /\
    seq w1 = next_number (table w) (seq w) /\
    sched w1 = tl (sched w).
Proof.
  intros Hok Hroom. pose proof (Add_cases p w) as C. rewrite Hok in C.
  cbv zeta in C. apply Z.leb_le in Hroom. rewrite Hroom in C.
  eexists. split; [exact C|]. repeat split.
Qed.

Lemma Get_stored_step (p : Parcel) (w : World) :
  next_outcome w = Ok -> stored p w ->
  exists w1,
    Get (Number p) w = ((p, None), w1) /\
    table w1 = table w /\ seq w1 = seq w /\ sched w1 = tl (sched w).
Proof.
  intros Hok Hst. eexists. split; [exact (Get_stored p w Hok Hst)|].
  repeat split.
Qed.

Lemma Get_absent_step (n : Z) (w : World) :
  next_outcome w = Ok -> lookup n (table w) = None ->
  exists w1,
    Get n w = ((zero_Parcel, Some ErrNoRows), w1) /\
    table w1 = table w /\ seq w1 = seq w /\ sched w1 = tl (sched w).
Proof.
  intros Hok Hno. eexists. split; [exact (Get_absent n w Hok Hno)|].
  repeat split.
Qed.

Lemma stored_last (t : list Row) (p : Parcel) (w : World) :
  table w = t ++ [row_of_parcel p] ->
  (forall r, In r t -> r_number r < Number p) ->
  stored p w.
Proof.
  intros HT Hf. unfold stored. rewrite HT. apply lookup_last.
  intros r Hin. apply Hf in Hin. lia.
Qed.

Lemma quiet_ok (k : nat) (w : World) :
  quiet (S k) w = true -> next_outcome w = Ok.
Proof. intros H. now apply quiet_step in H. Qed.

Lemma quiet_tl (k : nat) (w w' : World) :
  quiet (S k) w = true -> sched w' = tl (sched w) -> quiet k w' = true.
Proof. intros H Hs. apply quiet_step in H. destruct H as (_ & H). now apply H. Qed.

Ltac run_test_steps :=
  unfold run_test;
  cbv beta iota zeta delta
      [TestAddGetDelete TestSetAddress TestSetStatus and_then call sql_Open pure
       require_NoError require_NotEmpty require_Equal assert_Equal require
       assert_ getTestParcel].

Lemma nonzero_number (n : Z) : 1 <= n -> negb (n =? 0) = true.
Proof. intros H. apply negb_true_iff. apply Z.eqb_neq. lia. Qed.

(** X14 -- [TestAddGetDelete] passes on any database, whatever it already
    holds, when the backend runs its four statements and a key is left, and
    it leaves the table as it found it; when the backend refuses the INSERT
    it stops at its first assertion on the store. *)
Theorem TestAddGetDelete_passes (now : string) (w : World) :
  (quiet 4 w = true ->
   next_number (table w) (seq w) <= max_int64 ->
   exists w', run_test (TestAddGetDelete now) w = ([], w') /\
              table w' = table w) /\
  (forall msg, next_outcome w = StmtFails msg ->
               fst (run_test (TestAddGetDelete now) w) = [45%nat]).
Proof.
  split.
  - intros Hq Hroom.
    set (p := mkParcel 0 1000 ParcelStatusRegistered "test" now).
    set (N := next_number (table w) (seq w)) in *.
    destruct (Add_step p w (quiet_ok _ _ Hq) Hroom) as (w1 & HA & HT1 & _ & HS1).
    fold N in HA, HT1.
    pose proof (quiet_tl _ _ _ Hq HS1) as Hq1.
    assert (Hfresh : forall r, In r (table w) -> r_number r < N)
      by (intros r Hin; now apply next_number_fresh).
    destruct (Get_stored_step (with_Number N p) w1 (quiet_ok _ _ Hq1)
                (stored_last _ _ _ HT1 Hfresh)) as (w2 & HG & HT2 & _ & HS2).
    cbn [Number with_Number] in HG.
    pose proof (quiet_tl _ _ _ Hq1 HS2) as Hq2.
    destruct (Delete_runs N w2 (quiet_ok _ _ Hq2)) as (w3 & HD & _ & HS3 & HT3).
    pose proof (quiet_tl _ _ _ Hq2 HS3) as Hq3.
    assert (HT3' : table w3 = table w).
    { rewrite HT3, HT2, HT1, filter_app.
      rewrite off_number_delete by (intros r Hin; apply Hfresh in Hin; lia).
      cbn [filter].
      replace (has_number N (row_of_parcel (with_Number N p))) with true
        by (symmetry; apply has_number_true; reflexivity).
      cbn. apply app_nil_r. }
    assert (Hno : lookup N (table w3) = None).
    { rewrite HT3'. apply lookup_none. intros r Hin. apply Hfresh in Hin. lia. }
    destruct (Get_absent_step N w3 (quiet_ok _ _ Hq3) Hno)
      as (w4 & HG4 & HT4 & _ & _).
    exists w4. split; [|now rewrite HT4].
    run_test_steps. fold p. rewrite HA. cbv beta iota.
    rewrite (nonzero_number N) by (apply next_number_positive).
    rewrite HG. cbv beta iota. cbn [Address Client CreatedAt Status with_Number p].
    rewrite !String.eqb_refl, Z.eqb_refl.
    rewrite HD. cbv beta iota. rewrite HG4. reflexivity.
  - intros msg Hout. pose proof (Add_cases (getTestParcel now) w) as C.
    rewrite Hout in C. run_test_steps.
    change (mkParcel 0 1000 ParcelStatusRegistered "test" now)
      with (getTestParcel now).
    rewrite C. reflexivity.
Qed.

(** The test on a database that already holds a parcel. *)
Lemma TestAddGetDelete_passes_witness :
  exists w',
    run_test (TestAddGetDelete "2024-01-01T00:00:00Z")
      (mkWorld [mkRow 5 (Some 77) (Some "sent") (Some "x") (Some "t")] 5 [] [] [])
    = ([], w') /\
    table w' = [mkRow 5 (Some 77) (Some "sent") (Some "x") (Some "t")].
Proof.
  apply (proj1 (TestAddGetDelete_passes "2024-01-01T00:00:00Z"
                  (mkWorld [mkRow 5 (Some 77) (Some "sent") (Some "x") (Some "t")]
                     5 [] [] []))).
  - reflexivity.
  - vm_compute. discriminate.
Defined.

(** X15 -- [TestSetAddress] passes on any database when the backend runs
    its three statements and a key is left; it leaves one parcel more than
    it found, registered, with the new address. *)
Theorem TestSetAddress_passes (now : string) (w : World) :
  quiet 3 w = true ->
  next_number (table w) (seq w) <= max_int64 ->
  exists w',
    run_test (TestSetAddress now) w = ([], w') /\
    table w'
    = table w
      ++ [mkRow (next_number (table w) (seq w)) (Some 1000)
            (Some ParcelStatusRegistered) (Some "new test address") (Some now)].
Proof.
  intros Hq Hroom.
  set (p := mkParcel 0 1000 ParcelStatusRegistered "test" now).
  set (N := next_number (table w) (seq w)) in *.
  destruct (Add_step p w (quiet_ok _ _ Hq) Hroom) as (w1 & HA & HT1 & _ & HS1).
  fold N in HA, HT1.
  pose proof (quiet_tl _ _ _ Hq HS1) as Hq1.
  assert (Hfresh : forall r, In r (table w) -> r_number r < N)
    by (intros r Hin; now apply next_number_fresh).
  destruct (SetAddress_runs N "new test address" w1 (quiet_ok _ _ Hq1))
    as (w2 & HSA & _ & HS2 & HT2).
  pose proof (quiet_tl _ _ _ Hq1 HS2) as Hq2.
  assert (HT2' : table w2
                 = table w
                   ++ [row_of_parcel
                         (with_Address "new test address" (with_Number N p))]).
  { rewrite HT2, HT1, map_app.
    rewrite off_number_guarded_update
      by (intros r Hin; apply Hfresh in Hin; lia).
    cbn [map].
    replace (has_number N (row_of_parcel (with_Number N p))) with true
      by (symmetry; apply has_number_true; reflexivity).
    reflexivity. }
  destruct (Get_stored_step (with_Address "new test address" (with_Number N p)) w2
              (quiet_ok _ _ Hq2) (stored_last _ _ _ HT2' Hfresh))
    as (w3 & HG & HT3 & _ & _).
  cbn [Number with_Number with_Address] in HG.
  exists w3. split; [|rewrite HT3; exact HT2'].
  run_test_steps. fold p. rewrite HA. cbv beta iota.
  rewrite (nonzero_number N) by (apply next_number_positive).
  rewrite HSA. cbv beta iota. rewrite HG. reflexivity.
Qed.

Lemma TestSetAddress_passes_witness :
  exists w',
    run_test (TestSetAddress "2024-01-01T00:00:00Z")
      (mkWorld [mkRow 5 (Some 77) (Some "sent") (Some "x") (Some "t")] 5 [] [] [])
    = ([], w') /\
    table w'
    = [mkRow 5 (Some 77) (Some "sent") (Some "x") (Some "t")]
      ++ [mkRow 6 (Some 1000) (Some "registered") (Some "new test address")
            (Some "2024-01-01T00:00:00Z")].
Proof.
  apply (TestSetAddress_passes "2024-01-01T00:00:00Z"
           (mkWorld [mkRow 5 (Some 77) (Some "sent") (Some "x") (Some "t")]
              5 [] [] [])).
  - reflexivity.
  - vm_compute. discriminate.
Defined.

(** X16 -- [TestSetStatus] passes on any database when the backend runs its
    three statements and a key is left; it leaves one parcel more than it
    found, in status [sent], which no [Delete] of the store removes. *)
Theorem TestSetStatus_passes (now : string) (w : World) :
  quiet 3 w = true ->
  next_number (table w) (seq w) <= max_int64 ->
  exists w',
    run_test (TestSetStatus now) w = ([], w') /\
    table w'
    = table w
      ++ [mkRow (next_number (table w) (seq w)) (Some 1000)
            (Some ParcelStatusSent) (Some "test") (Some now)] /\
    forall w'', table w'' = table w' ->
                table (snd (Delete (next_number (table w) (seq w)) w''))
                = table w''.
Proof.
  intros Hq Hroom.
  set (p := mkParcel 0 1000 ParcelStatusRegistered "test" now).
  set (N := next_number (table w) (seq w)) in *.
  destruct (Add_step p w (quiet_ok _ _ Hq) Hroom) as (w1 & HA & HT1 & _ & HS1).
  fold N in HA, HT1.
  pose proof (quiet_tl _ _ _ Hq HS1) as Hq1.
  assert (Hfresh : forall r, In r (table w) -> r_number r < N)
    by (intros r Hin; now apply next_number_fresh).
  destruct (SetStatus_runs N ParcelStatusSent w1 (quiet_ok _ _ Hq1))
    as (w2 & HSS & _ & HS2 & HT2).
  pose proof (quiet_tl _ _ _ Hq1 HS2) as Hq2.
  assert (HT2' : table w2
                 = table w
                   ++ [row_of_parcel
                         (with_Status ParcelStatusSent (with_Number N p))]).
  { rewrite HT2, HT1, map_app.
    rewrite off_number_update by (intros r Hin; apply Hfresh in Hin; lia).
    cbn [map].
    replace (has_number N (row_of_parcel (with_Number N p))) with true
      by (symmetry; apply has_number_true; reflexivity).
    reflexivity. }
  destruct (Get_stored_step (with_Status ParcelStatusSent (with_Number N p)) w2
              (quiet_ok _ _ Hq2) (stored_last _ _ _ HT2' Hfresh))
    as (w3 & HG & HT3 & _ & _).
  cbn [Number with_Number with_Status] in HG.
  exists w3. split; [|split; [rewrite HT3; exact HT2'|]].
  - run_test_steps. fold p. rewrite HA. cbv beta iota.
    rewrite (nonzero_number N) by (apply next_number_positive).
    rewrite HSS. cbv beta iota. rewrite HG. reflexivity.
  - intros w'' HT''. destruct (Delete_table N w'') as [E|E]; rewrite E;
      [reflexivity|].
    rewrite HT'', HT3, HT2', filter_app.
    rewrite off_number_delete by (intros r Hin; apply Hfresh in Hin; lia).
    cbn [filter].
    replace (is_registered
               (row_of_parcel (with_Status ParcelStatusSent (with_Number N p))))
      with false by reflexivity.
    now rewrite andb_false_r.
Qed.

Lemma TestSetStatus_passes_witness :
  exists w',
    run_test (TestSetStatus "2024-01-01T00:00:00Z") (mkWorld [] 0 [] [] [])
    = ([], w') /\
    table w'
    = [] ++ [mkRow 1 (Some 1000) (Some "sent") (Some "test")
               (Some "2024-01-01T00:00:00Z")] /\
    forall w'', table w'' = table w' -> table (snd (Delete 1 w'')) = table w''.
Proof.
  apply (TestSetStatus_passes "2024-01-01T00:00:00Z" (mkWorld [] 0 [] [] [])).
  - reflexivity.
  - vm_compute. discriminate.
Defined.

(** ** [TestGetByClient] *)

Lemma max_number_app (t t' : list Row) :
  max_number (t ++ t') = Z.max (max_number t) (max_number t').
Proof.
  unfold max_number. induction t as [|r t IH]; cbn [map app fold_right].
  - pose proof (max_number_nonneg t') as H. unfold max_number in H. lia.
  - rewrite IH. lia.
Qed.

Lemma next_number_after_add (t : list Row) (s : Z) (r : Row) :
  r_number r = next_number t s ->
  next_number (t ++ [r]) (next_number t s) = next_number t s + 1.
Proof.
  intros Hr. unfold next_number at 1. rewrite max_number_app.
  unfold max_number at 2. cbn [map fold_right]. rewrite Hr.
  pose proof (next_number_positive t s). unfold next_number in *.
  pose proof (max_number_nonneg t). lia.
Qed.

Lemma quiet_plus_step (k : nat) (w w' : World) :
  quiet (S k) w = true -> sched w' = tl (sched w) ->
  next_outcome w = Ok /\ quiet k w' = true.
Proof. intros H Hs. split; [exact (quiet_ok _ _ H)|exact (quiet_tl _ _ _ H Hs)]. Qed.

(** The first loop on a backend that runs the INSERTs: the parcels get
    consecutive numbers, and the table gains their rows. *)
Lemma add_parcels_runs (todo : list Parcel) :
  forall done parcelMap fs w j,
    quiet (List.length todo + j) w = true ->
    next_number (table w) (seq w) + Z.of_nat (List.length todo) - 1 <= max_int64 ->
    exists w',
      add_parcels todo done parcelMap fs w
      = (Some (done ++ number_from (next_number (table w) (seq w)) todo,
               map_after (next_number (table w) (seq w)) todo parcelMap),
         fs, w') /\
      table w'
      = table w ++ map row_of_parcel (number_from (next_number (table w) (seq w)) todo) /\
      quiet j w' = true.
Proof.
  induction todo as [|p todo IH]; intros done parcelMap fs w j Hq Hroom.
  - exists w. cbn [add_parcels number_from map_after map]. unfold pure.
    rewrite !app_nil_r. auto.
  - cbn [List.length Nat.add] in Hq.
    assert (HN : next_number (table w) (seq w) <= max_int64)
      by (cbn [List.length] in Hroom; lia).
    destruct (Add_step p w (quiet_ok _ _ Hq) HN) as (w1 & HA & HT1 & HS1 & HSc).
    pose proof (quiet_tl _ _ _ Hq HSc) as Hq1.
    set (N := next_number (table w) (seq w)) in *.
    assert (HN1 : next_number (table w1) (seq w1) = N + 1).
    { rewrite HT1, HS1. now apply next_number_after_add. }
    destruct (IH (done ++ [with_Number N p]) ((N, with_Number N p) :: parcelMap)
                fs w1 j Hq1) as (w' & HR & HT & Hqj).
    { rewrite HN1. cbn [List.length] in Hroom. lia. }
    rewrite HN1 in HR, HT.
    exists w'. split; [|split; [|exact Hqj]].
    + cbn [add_parcels number_from map_after].
      cbv beta iota zeta delta [and_then call require_NoError require_NotEmpty require].
      rewrite HA. cbv beta iota. rewrite (nonzero_number N)
        by (apply next_number_positive).
      rewrite HR. now rewrite <- app_assoc.
    + rewrite HT, HT1. cbn [number_from map]. now rewrite <- app_assoc.
Qed.

Lemma number_from_length (n : Z) (ps : list Parcel) :
  List.length (number_from n ps) = List.length ps.
Proof. revert n. induction ps; intros n; cbn; auto. Qed.

Lemma number_from_client (n : Z) (ps : list Parcel) (c : Z) (q : Parcel) :
  (forall p, In p ps -> Client p = c) ->
  In q (number_from n ps) -> Client q = c.
Proof.
  revert n. induction ps as [|p ps IH]; intros n Hc; cbn [number_from In]; [tauto|].
  intros [<-|Hin].
  - cbn. apply Hc. now left.
  - apply (IH (n + 1)); [|exact Hin]. intros p0 H0. apply Hc. now right.
Qed.

Lemma number_from_range (n : Z) (ps : list Parcel) (q : Parcel) :
  In q (number_from n ps) -> n <= Number q.
Proof.
  revert n. induction ps as [|p ps IH]; intros n; cbn [number_from In]; [tauto|].
  intros [<-|Hin]; [cbn; lia|]. apply IH in Hin. lia.
Qed.

Lemma map_get_cons (k n : Z) (p : Parcel) (parcelMap : list (Z * Parcel)) :
  map_get ((n, p) :: parcelMap) k = if n =? k then p else map_get parcelMap k.
Proof. unfold map_get. cbn [find fst]. destruct (n =? k); reflexivity. Qed.

Lemma map_after_below (ps : list Parcel) :
  forall n parcelMap k,
    k < n -> map_get (map_after n ps parcelMap) k = map_get parcelMap k.
Proof.
  induction ps as [|p ps IH]; intros n parcelMap k Hk; cbn [map_after];
    [reflexivity|].
  rewrite IH by lia. rewrite map_get_cons.
  replace (n =? k) with false by (symmetry; apply Z.eqb_neq; lia). reflexivity.
Qed.

Lemma map_after_get (ps : list Parcel) :
  forall n parcelMap q,
    In q (number_from n ps) -> map_get (map_after n ps parcelMap) (Number q) = q.
Proof.
  induction ps as [|p ps IH]; intros n parcelMap q; cbn [number_from map_after In];
    [tauto|].
  intros [<-|Hin].
  - rewrite map_after_below by (cbn; lia). rewrite map_get_cons.
    cbn [Number with_Number]. now rewrite Z.eqb_refl.
  - now apply IH.
Qed.

Lemma Parcel_eqb_refl (p : Parcel) : Parcel_eqb p p = true.
Proof. unfold Parcel_eqb. now rewrite !Z.eqb_refl, !String.eqb_refl. Qed.

Lemma check_parcels_pass (storedParcels : list Parcel) :
  forall parcelMap fs w,
    (forall p, In p storedParcels -> map_get parcelMap (Number p) = p) ->
    check_parcels storedParcels parcelMap fs w = (Some tt, fs, w).
Proof.
  induction storedParcels as [|p ps IH]; intros parcelMap fs w Hget;
    cbn [check_parcels]; [reflexivity|].
  cbv beta iota zeta delta [and_then require_Equal assert_Equal require assert_].
  rewrite (Hget p) by now left.
  rewrite Parcel_eqb_refl, !String.eqb_refl, Z.eqb_refl.
  apply IH. intros q Hq. apply Hget. now right.
Qed.

Lemma filter_client_parcels (c : Z) (ps : list Parcel) :
  (forall p, In p ps -> Client p = c) ->
  filter (has_client c) (map row_of_parcel ps) = map row_of_parcel ps.
Proof.
  intros H. apply filter_all. intros r Hin. apply in_map_iff in Hin.
  destruct Hin as (p & <- & Hp). apply has_client_row_of_parcel. auto.
Qed.

Lemma scan_loop_length (rows : list Row) (res : list Parcel) :
  scan_loop rows [] = inr res -> List.length res = List.length rows.
Proof.
  intros H. pose proof (scan_loop_spec rows []) as S. rewrite H in S.
  destruct S as (ps & -> & ->). cbn [app]. now rewrite length_map.
Qed.

(** X17 -- [TestGetByClient] depends on what the database holds: when the
    backend runs its four statements and three keys are left, it passes if
    and only if no row stored before carries the client number it drew; a
    row of that client makes it stop at its assertion on the error or on the
    length of the result. *)
Theorem TestGetByClient_passes_iff (now0 now1 now2 : string) (client : Z)
        (w : World) :
  quiet 4 w = true ->
  next_number (table w) (seq w) + 2 <= max_int64 ->
  (fst (run_test (TestGetByClient now0 now1 now2 client) w) = [] <->
   forall r, In r (table w) -> r_client r <> Some client) /\
  (fst (run_test (TestGetByClient now0 now1 now2 client) w) = [] \/
   fst (run_test (TestGetByClient now0 now1 now2 client) w) = [159%nat] \/
   fst (run_test (TestGetByClient now0 now1 now2 client) w) = [160%nat]).
Proof.
  intros Hq Hroom.
  set (todo := map (with_Client client)
                 [getTestParcel now0; getTestParcel now1; getTestParcel now2]).
  set (N := next_number (table w) (seq w)) in *.
  destruct (add_parcels_runs todo [] [] [] w 1 Hq) as (w3 & HAdd & HT3 & Hq3).
  { cbn [todo map List.length]. fold N. lia. }
  fold N in HAdd, HT3. cbn [app] in HAdd.
  assert (Hclient : forall p, In p (number_from N todo) -> Client p = client).
  { intros p. apply number_from_client. intros p0 Hp0.
    cbn [todo map In] in Hp0.
    destruct Hp0 as [<-|[<-|[<-|[]]]]; reflexivity. }
  assert (Hrows : filter (has_client client) (table w3)
                  = filter (has_client client) (table w)
                    ++ map row_of_parcel (number_from N todo)).
  { rewrite HT3, filter_app. f_equal. now apply filter_client_parcels. }
  assert (Hrun : run_test (TestGetByClient now0 now1 now2 client) w
                 = let '(r, w4) := GetByClient client w3 in
                   let '(_, fs, w') :=
                     (let (storedParcels, err) := r in
                      and_then (require_NoError 159 err)
                        (fun _ =>
                           and_then (require_Len 160 storedParcels
                                       (List.length (number_from N todo)))
                             (fun _ => check_parcels storedParcels
                                         (map_after N todo [])))) [] w4 in
                   (fs, w')).
  { unfold run_test, TestGetByClient.
    cbv beta iota zeta delta [and_then call sql_Open pure require_NoError require].
    fold todo. rewrite HAdd. cbv beta iota.
    destruct (GetByClient client w3) as [[ps e] w4]. reflexivity. }
  assert (Hno_iff : filter (has_client client) (table w) = [] <->
                    forall r, In r (table w) -> r_client r <> Some client).
  { split.
    - intros Hf r Hin Hc. apply has_client_true in Hc.
      assert (H : In r (filter (has_client client) (table w)))
        by (apply filter_In; auto).
      rewrite Hf in H. exact H.
    - intros Hno. apply filter_none. intros r Hin.
      destruct (has_client client r) eqn:E; [|reflexivity].
      apply has_client_true in E. exfalso. exact (Hno r Hin E). }
  rewrite <- Hno_iff. rewrite Hrun.
  destruct (filter (has_client client) (table w)) as [|r0 rest] eqn:Hpre.
  - cbn [app] in Hrows.
    rewrite (GetByClient_runs client w3 _ (quiet_ok _ _ Hq3) Hrows).
    cbv beta iota zeta delta [and_then require_NoError require_Len require].
    rewrite Nat.eqb_refl.
    rewrite check_parcels_pass by (intros p Hp; now apply map_after_get).
    cbn [fst]. split; [tauto|now left].
  - rewrite GetByClient_cases. cbv zeta. rewrite (quiet_ok _ _ Hq3), Hrows.
    destruct (scan_loop _ []) as [[res e]|res] eqn:E.
    + cbv beta iota zeta delta [and_then require_NoError require_Len require].
      cbn [fst app]. split; [|right; now left].
      split; intros H; discriminate H.
    + apply scan_loop_length in E.
      rewrite length_app, length_map in E. cbn [List.length] in E.
      cbv beta iota zeta delta [and_then require_NoError require_Len require].
      replace (Nat.eqb (List.length res) (List.length (number_from N todo)))
        with false by (symmetry; apply Nat.eqb_neq; lia).
      cbn [fst app]. split; [|right; now right].
      split; intros H; discriminate H.
Qed.

(** The test passes on a database that holds no parcel of the client it
    draws. *)
Lemma TestGetByClient_passes_iff_witness :
  fst (run_test (TestGetByClient "t0" "t1" "t2" 76)
         (mkWorld [mkRow 5 (Some 77) (Some "sent") (Some "x") (Some "t")]
            5 [] [] [])) = [].
Proof.
  refine (proj2 (proj1 (TestGetByClient_passes_iff "t0" "t1" "t2" 76
                          (mkWorld [mkRow 5 (Some 77) (Some "sent") (Some "x")
                                      (Some "t")] 5 [] [] [])
                          eq_refl _)) _).
  - vm_compute. discriminate.
  - intros r [<-|[]]. discriminate.
Defined.

(** The same test on a database that holds one: the result is too long. *)
Example TestGetByClient_fails_on_client_rows :
  fst (run_test (TestGetByClient "t0" "t1" "t2" 77)
         (mkWorld [mkRow 5 (Some 77) (Some "sent") (Some "x") (Some "t")]
            5 [] [] [])) = [160%nat].
Proof. reflexivity. Qed.

(** ** A parcel added in another status *)

(** X18 -- [Add] stores the status it is given and does not insist on
    [registered]: a parcel added in any other status is behind the gate from
    the start, and neither [SetAddress] nor [Delete] for its number changes
    the table, whatever the backend does with them. *)
Theorem added_unregistered_is_locked (p : Parcel) (w w1 : World) (n : Z) :
  Add p w = ((n, None), w1) ->
  Status p <> ParcelStatusRegistered ->
  (forall address, table (snd (SetAddress n address w1)) = table w1) /\
  table (snd (Delete n w1)) = table w1.
Proof.
  intros HA Hs. apply Add_adds in HA. destruct HA as (HT & Hfresh & _ & _).
  assert (G : forall r, In r (table w1) ->
                has_number n r && is_registered r = false).
  { intros r Hin. rewrite HT in Hin. apply in_app_or in Hin.
    destruct Hin as [Hin|[<-|[]]].
    - apply Hfresh in Hin. apply has_number_false in Hin. now rewrite Hin.
    - apply andb_false_iff. right. unfold is_registered.
      cbn [row_of_parcel r_status with_Number Status].
      now apply String.eqb_neq. }
  split.
  - intros address.
    destruct (SetAddress_table n address w1) as [E|E]; rewrite E; [reflexivity|].
    apply map_id_when. intros r Hin. now rewrite (G r Hin).
  - destruct (Delete_table n w1) as [E|E]; rewrite E; [reflexivity|].
    apply filter_all. intros r Hin. now rewrite (G r Hin).
Qed.

(** A parcel added as [sent]. *)
Lemma added_unregistered_is_locked_witness :
  table (snd (Delete 1 (snd (Add (mkParcel 0 1000 "sent" "test" "t0")
                               (mkWorld [] 0 [] [] [])))))
  = [mkRow 1 (Some 1000) (Some "sent") (Some "test") (Some "t0")].
Proof.
  refine (proj2 (added_unregistered_is_locked (mkParcel 0 1000 "sent" "test" "t0")
                   (mkWorld [] 0 [] [] []) _ 1 eq_refl _)).
  discriminate.
Defined.
